(** * airxtract: delimiter scanning of a rule-export file

    A shallow embedding of [src/airxtract.py] and the properties of its
    three functions: [read_binary_range_in_file], [find_offsets] and
    [extract_sections].

    Conventions of the embedding.
    - Python [int] is [Z]; [bytes] is [list byte]; [str] is [string]
      (ASCII only).
    - A Python dict is a [gmap string pyval]; a Python list is a [list].
    - Exceptions are values of [exn]; a computation that may raise is a
      [res]; a computation that may also print is an [io].
    - The [while True] loop of [find_offsets] is driven by a fuel counter;
      running out of fuel is the outcome [Diverge]. *)

From Stdlib Require Import ZArith String Ascii List Lia.
From Stdlib.Strings Require Import Byte.
From stdpp Require Import base gmap strings list pretty.

Local Open Scope string_scope.
Local Open Scope Z_scope.
Local Open Scope list_scope.

(** ** Python values *)

Abbreviation bytes := (list byte).

#[warnings="-register-all"]
Inductive pyval :=
| VStr (s : string)
| VInt (z : Z)
| VBool (b : bool)
| VList (l : list pyval)
| VDict (d : gmap string pyval).

(** The exceptions that the program can meet. [OSError] stands for every
    subclass of it other than [FileNotFoundError]. *)
Inductive exn :=
| FileNotFoundError
| OSError
| ValueError
| OverflowError
| MemoryError
| AttributeError
| IndexError.

(** Outcome of a computation: a value, an exception that is still
    propagating, or a loop that has not finished within the fuel. *)
Inductive res (A : Type) :=
| Ok (a : A)
| Raise (e : exn)
| Diverge.
Arguments Ok {A} a.
Arguments Raise {A} e.
Arguments Diverge {A}.

#[global] Instance res_ret : MRet res := λ A a, Ok a.

#[global] Instance res_bind : MBind res := λ A B k m,
  match m with
  | Ok a => k a
  | Raise e => Raise e
  | Diverge => Diverge
  end.

(** What the program writes to standard output, line by line.
    [OutNotFound f] is the line ["File not found: f"], [OutError e] is the
    line ["Error occurred: "] followed by the text of [e], and [OutJson v]
    is the text [json.dumps(v, sort_keys=True, indent=4)]. *)
Inductive out :=
| OutNotFound (filename : string)
| OutError (e : exn)
| OutJson (v : pyval).

(** A computation that prints: its outcome and the lines printed up to
    the outcome. *)
Definition io (A : Type) : Type := res A * list out.

#[global] Instance io_ret : MRet io := λ A a, (Ok a, []).

#[global] Instance io_bind : MBind io := λ A B k m,
  match m.1 with
  | Ok a => let r := k a in (r.1, m.2 ++ r.2)
  | Raise e => (Raise e, m.2)
  | Diverge => (Diverge, m.2)
  end.

Definition lift {A} (r : res A) : io A := (r, []).

Definition print (o : out) : io () := (Ok (), [o]).

(** [for x in l: s = body(x, s)] *)
Fixpoint for_each {M : Type → Type} `{MRet M, MBind M} {A S : Type}
    (l : list A) (body : A → S → M S) (s : S) : M S :=
  match l with
  | [] => mret s
  | x :: l' => s' ← body x s; for_each l' body s'
  end.

(** [range(n)] *)
Definition range (n : nat) : list nat := seq 0 n.

(** [l[i]], which raises [IndexError] out of range. *)
Definition getitem {A} (l : list A) (i : nat) : res A :=
  match l !! i with
  | Some x => Ok x
  | None => Raise IndexError
  end.

(** [l[i] = x], which raises [IndexError] out of range. *)
Definition setitem {A} (l : list A) (i : nat) (x : A) : res (list A) :=
  if decide (i < length l)%nat then Ok (<[i:=x]> l) else Raise IndexError.

(** [len(b)] *)
Definition len {A} (l : list A) : Z := Z.of_nat (length l).

(** ** [hex] and [int(_, 16)] *)

Module Hex.

Definition digit_char (d : Z) : ascii :=
  match d with
  | 0 => "0" | 1 => "1" | 2 => "2" | 3 => "3" | 4 => "4" | 5 => "5"
  | 6 => "6" | 7 => "7" | 8 => "8" | 9 => "9" | 10 => "a" | 11 => "b"
  | 12 => "c" | 13 => "d" | 14 => "e" | _ => "f"
  end%char.

(** Value of a character as a base-16 digit; both letter cases count. *)
Definition digit_value (c : ascii) : option Z :=
  let n := Z.of_N (N_of_ascii c) in
  if (48 <=? n) && (n <=? 57) then Some (n - 48)
  else if (97 <=? n) && (n <=? 102) then Some (n - 87)
  else if (65 <=? n) && (n <=? 70) then Some (n - 55)
  else None.

(** Digits of a non-negative number, most significant first, pushed in
    front of [acc]. *)
Fixpoint digits_aux (fuel : nat) (n : Z) (acc : string) : string :=
  match fuel with
  | O => acc
  | S f =>
      let acc' := String (digit_char (n mod 16)) acc in
      if n / 16 =? 0 then acc' else digits_aux f (n / 16) acc'
  end.

Definition digits (n : Z) : string :=
  digits_aux (S (Z.to_nat (Z.log2 n))) n "".

(** Python's [hex]: ["0x"] and lower-case digits, a leading ["-"] for a
    negative number. *)
Definition hex (n : Z) : string :=
  if n <? 0 then "-0x" +:+ digits (- n) else "0x" +:+ digits n.

(** White space as [int] sees it in an ASCII [str]: the space and the
    five control characters from tab to carriage return. *)
Definition is_space (c : ascii) : bool :=
  let n := Z.of_N (N_of_ascii c) in
  ((9 <=? n) && (n <=? 13)) || (n =? 32).

Fixpoint skip_space (s : string) : string :=
  match s with
  | String c r => if is_space c then skip_space r else s
  | EmptyString => s
  end.

Fixpoint all_space (s : string) : bool :=
  match s with
  | String c r => is_space c && all_space r
  | EmptyString => true
  end.

(** The digits after the first one. Single underscores may separate
    digits; white space may trail. [prev_us] tells that the previous
    character was an underscore. *)
Fixpoint parse_digits (s : string) (acc : Z) (prev_us : bool) : option Z :=
  match s with
  | EmptyString => if prev_us then None else Some acc
  | String c r =>
      if Ascii.eqb c "_" then
        if prev_us then None else parse_digits r acc true
      else
        match digit_value c with
        | Some d => parse_digits r (16 * acc + d) false
        | None =>
            if prev_us then None
            else if all_space (String c r) then Some acc else None
        end
  end.

(** A number starts with a digit. *)
Definition parse_number (s : string) : option Z :=
  match s with
  | String c r =>
      match digit_value c with
      | Some d => parse_digits r d false
      | None => None
      end
  | EmptyString => None
  end.

(** An optional ["0x"] or ["0X"], after which one underscore is allowed. *)
Definition parse_prefixed (s : string) : option Z :=
  match s with
  | String "0" (String x r) =>
      if Ascii.eqb x "x" || Ascii.eqb x "X" then
        match r with
        | String "_" r' => parse_number r'
        | _ => parse_number r
        end
      else parse_number s
  | _ => parse_number s
  end.

(** Python's [int(s, 16)] on an ASCII [str]; [None] is [ValueError]. *)
Definition int16 (s : string) : option Z :=
  match skip_space s with
  | String "+" r => parse_prefixed r
  | String "-" r => Z.opp <$> parse_prefixed r
  | r => parse_prefixed r
  end.

End Hex.

Export Hex.


(** [int(s, 16)] as a computation. *)
Definition int16_res (s : string) : res Z :=
  match int16 s with
  | Some n => Ok n
  | None => Raise ValueError
  end.

(** ** [bytes.find] *)

(** [data] starts with [pattern]. *)
Fixpoint startswith (pattern data : bytes) : bool :=
  match pattern, data with
  | [], _ => true
  | _ :: _, [] => false
  | a :: pattern', b :: data' => Byte.eqb a b && startswith pattern' data'
  end.

(** The lowest position, counted from [pos], at which [pattern] starts in
    [data]; [-1] when there is none. *)
Fixpoint find_at (pattern data : bytes) (pos : Z) : Z :=
  if startswith pattern data then pos
  else
    match data with
    | [] => -1
    | _ :: data' => find_at pattern data' (pos + 1)
    end.

(** [data.find(pattern, start)]: a negative [start] counts from the end,
    a [start] beyond the end finds nothing. *)
Definition bytes_find (data pattern : bytes) (start : Z) : Z :=
  let start := if start <? 0 then Z.max (start + len data) 0 else start in
  if len data <? start then -1
  else find_at pattern (drop (Z.to_nat start) data) start.

(** ** The range reader *)

(** A name in the file system: a regular file with its content, or
    something that [open(_, 'rb')] refuses with an [OSError] (a directory,
    a file without read permission). *)
Inductive fnode :=
| Regular (content : bytes)
| Unreadable.

(** The file system and the machine it is on: the files by name, the
    largest offset that the file system accepts in a seek, and the
    largest number of bytes that a read can get memory for. Two things
    are taken for granted: no file has a NUL character in its name, and
    an offset or a length up to the size of the file at hand is within
    both limits, since the file is there and the run holds it in memory
    as a whole. *)
Record filesystem := {
  files : gmap string fnode;
  seek_limit : Z;
  read_limit : Z
}.

#[global] Instance filesystem_lookup : Lookup string fnode filesystem :=
  λ filename fs, files fs !! filename.

(** The name holds a NUL character. *)
Fixpoint has_nul (s : string) : bool :=
  match s with
  | EmptyString => false
  | String c r => Ascii.eqb c "000" || has_nul r
  end.

(** [open(filename, 'rb')]: a name with a NUL character is refused with
    [ValueError] before the file system is asked. *)
Definition open_rb (fs : filesystem) (filename : string) : res bytes :=
  match fs !! filename with
  | Some (Regular content) => Ok content
  | Some Unreadable => Raise OSError
  | None =>
      if has_nul filename then Raise ValueError
      else Raise FileNotFoundError
  end.

Definition offset_max : Z := 2 ^ 63.

(** The number fits the signed 64-bit integer that an offset or a length
    is passed in. *)
Definition representable (n : Z) : bool :=
  (- offset_max <=? n) && (n <? offset_max).

(** [file.seek(pos)] from the start of the file; the result is the new
    position. A number that does not fit an offset raises [ValueError];
    a negative offset and an offset beyond what the file system accepts
    are refused by the system with [OSError]. Seeking beyond the end of
    the file is allowed. *)
Definition seek (fs : filesystem) (content : bytes) (pos : Z) : res Z :=
  if negb (representable pos) then Raise ValueError
  else if pos <? 0 then Raise OSError
  else if (pos <=? len content) || (pos <=? seek_limit fs) then Ok pos
  else Raise OSError.

(** [file.read()] at position [pos]. *)
Definition read_all (content : bytes) (pos : Z) : bytes :=
  drop (Z.to_nat pos) content.

(** [file.read(n)] at position [pos]. A number that does not fit a
    length raises [OverflowError]; [-1] reads to the end; a lower number
    is refused with [ValueError]; a length that no memory is found for
    raises [MemoryError]; otherwise the read returns [n] bytes, or fewer
    where the file ends. *)
Definition read_n (fs : filesystem) (content : bytes) (pos n : Z)
    : res bytes :=
  if negb (representable n) then Raise OverflowError
  else if n <? -1 then Raise ValueError
  else if n =? -1 then Ok (read_all content pos)
  else if (n <=? len content) || (n <=? read_limit fs)
  then Ok (take (Z.to_nat n) (drop (Z.to_nat pos) content))
  else Raise MemoryError.

(** The body of the [try] statement. *)
Definition read_body (fs : filesystem) (filename start end_ : string)
    : res bytes :=
  content ← open_rb fs filename;
  start ← int16_res start;
  pos ← seek fs content start;
  if String.eqb end_ "end_of_file" then
    Ok (read_all content pos)
  else
    end_ ← int16_res end_;
    read_n fs content pos (end_ - start).

(** [read_binary_range_in_file(filename, start, end)]; the result [None]
    is Python's [None]. The defaults of the source are [start = "0"] and
    [end = "end_of_file"]. *)
Definition read_binary_range_in_file (fs : filesystem)
    (filename start end_ : string) : io (option bytes) :=
  match read_body fs filename start end_ with
  | Ok data => (Ok (Some data), [])
  | Raise FileNotFoundError => (Ok None, [OutNotFound filename])
  | Raise e => (Ok None, [OutError e])
  | Diverge => (Diverge, [])
  end.

(** ** The offset scanner *)

(** A block is the two-element list [[start, end]] of the source. *)
Abbreviation block := (string * string)%type.

(** The [while True] loop: [s] is the search start, [offsets] the list
    built so far. *)
Fixpoint scan (fuel : nat) (data pattern : bytes) (s : Z)
    (offsets : list string) : res (list string) :=
  match fuel with
  | O => Diverge
  | S fuel' =>
      let index := bytes_find data pattern s in
      if index =? -1 then Ok offsets
      else scan fuel' data pattern (index + len pattern)
                (offsets ++ [hex index])
  end.

(** The [for i in range(size)] loop with its [break]. *)
Fixpoint pair_up (offsets : list string) (size : nat) (indices : list nat)
    (blocks : list block) : res (list block) :=
  match indices with
  | [] => Ok blocks
  | i :: indices' =>
      if (size <=? i + 1)%nat then Ok blocks
      else
        section_0 ← getitem offsets i;
        section_1 ← getitem offsets (i + 1);
        pair_up offsets size indices' (blocks ++ [(section_0, section_1)])
  end.

(** [find_offsets(data, pattern)] with [fuel] iterations allowed to the
    [while] loop. [data] is [None] when the caller passes Python's
    [None], on which [data.find] raises [AttributeError]. *)
Definition find_offsets_fuel (fuel : nat) (data : option bytes)
    (pattern : bytes) : res (list block) :=
  match data with
  | None => Raise AttributeError
  | Some data =>
      offsets ← scan fuel data pattern 0 [];
      let size := length offsets in
      pair_up offsets size (range size) []
  end.

(** One iteration more than the buffer has bytes is enough whenever the
    loop ends at all ([scan_fuel_enough], [scan_empty_pattern]). *)
Definition find_offsets (data : option bytes) (pattern : bytes)
    : res (list block) :=
  find_offsets_fuel (S (length (default [] data))) data pattern.

(** ** The record builder *)

Definition section_pattern : bytes := [xff; xff; xff; xff]%byte.
Definition sub_section_pattern : bytes := [x00; x00; x00]%byte.

(** The body of the [for j] loop. *)
Definition sub_section_step (sub_section_ranges : list block)
    (section_end : Z) (j : nat) (sub_sections : list pyval)
    : res (list pyval) :=
  rng ← getitem sub_section_ranges j;
  sub_section_start ← int16_res rng.1;
  sub_section_end ← int16_res rng.2;
  let sub_section_size := sub_section_end - sub_section_start in
  let offset_1 := sub_section_end + section_end - len sub_section_pattern in
  let offset_2 := sub_section_end + section_end - len sub_section_pattern in
  let offset_1 :=
    if (j =? 0)%nat
    then sub_section_start + section_end - len section_pattern
    else offset_1 in
  let is_empty := sub_section_size <=? len sub_section_pattern in
  let cur_sub_sect : gmap string pyval :=
    <["name" := VStr ("sub_section_" +:+ pretty j)]>
    (<["start" := VStr rng.1]>
    (<["end" := VStr rng.2]>
    (<["offset_1" := VStr (hex offset_1)]>
    (<["offset_2" := VStr (hex offset_2)]>
    (<["size" := VInt sub_section_size]>
    (<["is_empty" := VBool is_empty]> ∅)))))) in
  setitem sub_sections j (VDict cur_sub_sect).

(** The body of the [for i] loop. The slots of [[{}] * n] all hold the
    same empty dict, but the inner loop replaces each slot and never
    updates the dict itself, so the sharing is not observable. *)
Definition section_step (fs : filesystem) (filename : string)
    (sections : list block) (i : nat) (extracted_sections : list pyval)
    : io (list pyval) :=
  sec ← lift (getitem sections i);
  section_start ← lift (int16_res sec.1);
  section_end ← lift (int16_res sec.2);
  let section_size := section_end - section_start in
  let is_empty := section_size <=? len section_pattern in
  sub_section ← read_binary_range_in_file fs filename sec.1 sec.2;
  sub_section_ranges ← lift (find_offsets sub_section sub_section_pattern);
  let section : gmap string pyval :=
    <["name" := VStr ("section_" +:+ pretty i)]>
    (<["section_start" := VStr sec.1]>
    (<["section_end" := VStr sec.2]>
    (<["size" := VInt section_size]>
    (<["is_empty" := VBool is_empty]> ∅)))) in
  let sub_sections := replicate (length sub_section_ranges) (VDict ∅) in
  sub_sections ← lift (for_each (range (length sub_section_ranges))
                    (sub_section_step sub_section_ranges section_end)
                    sub_sections);
  let section := <["sub_sections" := VList sub_sections]> section in
  mret (extracted_sections ++ [VDict section]).

(** [extract_sections(filename)] *)
Definition extract_sections (fs : filesystem) (filename : string) : io () :=
  data ← read_binary_range_in_file fs filename "0" "end_of_file";
  sections ← lift (find_offsets data section_pattern);
  extracted_sections ← for_each (range (length sections))
                         (section_step fs filename sections) [];
  for_each (range (length extracted_sections))
    (λ i _, doc ← lift (getitem extracted_sections i); print (OutJson doc))
    ().

(** * Vocabulary of the specification *)

(** [pattern] occurs in [data] at position [p]. *)
Definition match_at (data pattern : bytes) (p : nat) : Prop :=
  (p ≤ length data)%nat ∧ pattern `prefix_of` drop p data.

(** What a search from [s] answers: the first occurrence at or after
    [s], or [-1] when there is none. *)
Inductive find_result (data pattern : bytes) (s : nat) : Z → Prop :=
| find_found p :
    (s ≤ p)%nat →
    match_at data pattern p →
    (∀ q, (s ≤ q < p)%nat → ¬ match_at data pattern q) →
    find_result data pattern s (Z.of_nat p)
| find_missing :
    (∀ q, (s ≤ q)%nat → ¬ match_at data pattern q) →
    find_result data pattern s (-1).

(** The occurrences found left to right from [s], each search resuming
    right after the previous match: they do not overlap. *)
Inductive occurrences (data pattern : bytes) : nat → list nat → Prop :=
| occurrences_done s :
    (∀ q, (s ≤ q)%nat → ¬ match_at data pattern q) →
    occurrences data pattern s []
| occurrences_next s p occs :
    (s ≤ p)%nat →
    match_at data pattern p →
    (∀ q, (s ≤ q < p)%nat → ¬ match_at data pattern q) →
    occurrences data pattern (p + length pattern) occs →
    occurrences data pattern s (p :: occs).

(** Consecutive elements paired: [[a; b; c]] gives [[(a, b); (b, c)]]. *)
Definition adjacent {A} (l : list A) : list (A * A) := zip l (tail l).

(** An offset as the scanner writes it. *)
Definition hex_nat (p : nat) : string := hex (Z.of_nat p).

(** A range of positions as the scanner writes it. *)
Definition hex_block (r : nat * nat) : block := (hex_nat r.1, hex_nat r.2).

(** The range of numbers that a block of two hexadecimal strings
    denotes. *)
Definition block_range (b : block) : option (Z * Z) :=
  s ← int16 b.1; e ← int16 b.2; Some (s, e).

(** The seek to [n] in a file with the content [content] goes
    through. *)
Definition seek_accepts (fs : filesystem) (content : bytes) (n : Z) : Prop :=
  0 ≤ n < offset_max ∧ (n ≤ len content ∨ n ≤ seek_limit fs).

(** The faults of a read, in the order in which the reader meets them,
    each with the exception that it raises inside the [try]. *)
Inductive read_fault (fs : filesystem) (filename start end_ : string)
    : exn → Prop :=
| fault_name_nul :
    fs !! filename = None →
    has_nul filename = true →
    read_fault fs filename start end_ ValueError
| fault_missing :
    fs !! filename = None →
    has_nul filename = false →
    read_fault fs filename start end_ FileNotFoundError
| fault_unreadable :
    fs !! filename = Some Unreadable →
    read_fault fs filename start end_ OSError
| fault_start_malformed content :
    fs !! filename = Some (Regular content) →
    int16 start = None →
    read_fault fs filename start end_ ValueError
| fault_start_unrepresentable content n :
    fs !! filename = Some (Regular content) →
    int16 start = Some n → n < - offset_max ∨ offset_max ≤ n →
    read_fault fs filename start end_ ValueError
| fault_start_negative content n :
    fs !! filename = Some (Regular content) →
    int16 start = Some n → - offset_max ≤ n < 0 →
    read_fault fs filename start end_ OSError
| fault_start_beyond_limit content n :
    fs !! filename = Some (Regular content) →
    int16 start = Some n → 0 ≤ n < offset_max →
    len content < n → seek_limit fs < n →
    read_fault fs filename start end_ OSError
| fault_end_malformed content n :
    fs !! filename = Some (Regular content) →
    int16 start = Some n → seek_accepts fs content n →
    end_ ≠ "end_of_file" → int16 end_ = None →
    read_fault fs filename start end_ ValueError
| fault_length_unrepresentable content n m :
    fs !! filename = Some (Regular content) →
    int16 start = Some n → seek_accepts fs content n →
    end_ ≠ "end_of_file" → int16 end_ = Some m →
    m - n < - offset_max ∨ offset_max ≤ m - n →
    read_fault fs filename start end_ OverflowError
| fault_length_negative content n m :
    fs !! filename = Some (Regular content) →
    int16 start = Some n → seek_accepts fs content n →
    end_ ≠ "end_of_file" → int16 end_ = Some m →
    - offset_max ≤ m - n < -1 →
    read_fault fs filename start end_ ValueError
| fault_length_memory content n m :
    fs !! filename = Some (Regular content) →
    int16 start = Some n → seek_accepts fs content n →
    end_ ≠ "end_of_file" → int16 end_ = Some m →
    0 ≤ m - n < offset_max →
    len content < m - n → read_limit fs < m - n →
    read_fault fs filename start end_ MemoryError.

(** The line that reports an exception of the reader. *)
Definition diagnostic (filename : string) (e : exn) : out :=
  match e with
  | FileNotFoundError => OutNotFound filename
  | _ => OutError e
  end.

(** A line that is not a document. *)
Definition is_diagnostic (o : out) : Prop :=
  match o with
  | OutJson _ => False
  | _ => True
  end.

(** The field [k] of a record holds a hexadecimal string that denotes
    [n]. *)
Definition hex_field (d : gmap string pyval) (k : string) (n : Z) : Prop :=
  ∃ h, d !! k = Some (VStr h) ∧ int16 h = Some n.

(** The run on [filename] prints the section record [sec]. *)
Definition emits_section (fs : filesystem) (filename : string)
    (sec : gmap string pyval) : Prop :=
  ∃ k, (extract_sections fs filename).2 !! k = Some (OutJson (VDict sec)).

(** [sub] is the subsection record with local index [j] of [sec]. *)
Definition sub_section_of (sec : gmap string pyval) (j : nat)
    (sub : gmap string pyval) : Prop :=
  ∃ subs, sec !! "sub_sections" = Some (VList subs)
          ∧ subs !! j = Some (VDict sub).

(** What the record of the subsection with local index [j] holds, in a
    section that ends at [section_end]. *)
Definition sub_section_wf (section_end : Z) (j : nat)
    (sub : gmap string pyval) : Prop :=
  ∃ s e,
    hex_field sub "start" s
    ∧ hex_field sub "end" e
    ∧ sub !! "size" = Some (VInt (e - s))
    ∧ sub !! "is_empty" = Some (VBool (e - s <=? len sub_section_pattern))
    ∧ sub !! "offset_1"
      = Some (VStr (hex (if (j =? 0)%nat
                         then s + section_end - len section_pattern
                         else e + section_end - len sub_section_pattern)))
    ∧ sub !! "offset_2"
      = Some (VStr (hex (e + section_end - len sub_section_pattern))).

(** What the record of a section holds. *)
Definition section_wf (sec : gmap string pyval) : Prop :=
  ∃ s e subs,
    hex_field sec "section_start" s
    ∧ hex_field sec "section_end" e
    ∧ sec !! "size" = Some (VInt (e - s))
    ∧ sec !! "is_empty" = Some (VBool (e - s <=? len section_pattern))
    ∧ sec !! "sub_sections" = Some (VList subs)
    ∧ ∀ j sv, subs !! j = Some sv →
        ∃ sub, sv = VDict sub ∧ sub_section_wf e j sub.

Definition section_value_wf (v : pyval) : Prop :=
  ∃ sec, v = VDict sec ∧ section_wf sec.

(** A printed line is in order: a diagnostic, or a section record that
    holds what it should. *)
Definition out_wf (o : out) : Prop :=
  match o with
  | OutJson v => section_value_wf v
  | _ => True
  end.

(** The bytes of a range of positions: [content[r.1:r.2]]. *)
Definition slice (content : bytes) (r : nat * nat) : bytes :=
  take (r.2 - r.1) (drop r.1 content).

(** The record that the run builds for the subsection with local index
    [j] and local range [q], in a section that ends at [section_end]. *)
Definition sub_section_record (section_end : Z) (j : nat) (q : nat * nat)
    : gmap string pyval :=
  <["name" := VStr ("sub_section_" +:+ pretty j)]>
  (<["start" := VStr (hex_nat q.1)]>
  (<["end" := VStr (hex_nat q.2)]>
  (<["offset_1" :=
       VStr (hex (if (j =? 0)%nat
                  then Z.of_nat q.1 + section_end - len section_pattern
                  else Z.of_nat q.2 + section_end - len sub_section_pattern))]>
  (<["offset_2" :=
       VStr (hex (Z.of_nat q.2 + section_end - len sub_section_pattern))]>
  (<["size" := VInt (Z.of_nat q.2 - Z.of_nat q.1)]>
  (<["is_empty" :=
       VBool (Z.of_nat q.2 - Z.of_nat q.1 <=? len sub_section_pattern)]>
   ∅)))))).

(** The records of the subsections with the local ranges [qs], in
    order. *)
Definition sub_section_records (section_end : Z) (qs : list (nat * nat))
    : list pyval :=
  imap (λ j q, VDict (sub_section_record section_end j q)) qs.

(** The record that the run builds for the section with index [i] and
    range [r], given the records of its subsections. *)
Definition section_record (i : nat) (r : nat * nat) (subs : list pyval)
    : gmap string pyval :=
  <["sub_sections" := VList subs]>
  (<["name" := VStr ("section_" +:+ pretty i)]>
  (<["section_start" := VStr (hex_nat r.1)]>
  (<["section_end" := VStr (hex_nat r.2)]>
  (<["size" := VInt (Z.of_nat r.2 - Z.of_nat r.1)]>
  (<["is_empty" :=
       VBool (Z.of_nat r.2 - Z.of_nat r.1 <=? len section_pattern)]> ∅))))).

(** [doc] is the record of the [i]-th range between consecutive outer
    delimiters of [content], with the subsections that the inner
    delimiters of its bytes give. *)
Definition section_of_content (content : bytes) (i : nat) (r : nat * nat)
    (qs : list (nat * nat)) (doc : pyval) : Prop :=
  ∃ occs occs',
    occurrences content section_pattern 0 occs
    ∧ adjacent occs !! i = Some r
    ∧ occurrences (slice content r) sub_section_pattern 0 occs'
    ∧ qs = adjacent occs'
    ∧ doc = VDict (section_record i r
                     (sub_section_records (Z.of_nat r.2) qs)).

(** The keys of the two kinds of record. *)
Definition section_keys : gset string :=
  {[ "name"; "section_start"; "section_end"; "size"; "is_empty";
     "sub_sections" ]}.

Definition sub_section_keys : gset string :=
  {[ "name"; "start"; "end"; "offset_1"; "offset_2"; "size"; "is_empty" ]}.

(** * Sample inputs *)

(** The source of the end-to-end scenario: three outer delimiters, each
    followed by one inner delimiter and one payload byte. *)
Definition scenario_source : bytes :=
  [xff; xff; xff; xff; x00; x00; x00; xaa;
   xff; xff; xff; xff; x00; x00; x00; xbb;
   xff; xff; xff; xff; x00; x00; x00; xcc]%byte.

(** A machine that holds the one file [content] under the name
    ["rules.airx"], seeks up to 2^43 and reads up to 2^32 bytes at once. *)
Definition one_file (content : bytes) : filesystem :=
  {| files := {[ "rules.airx" := Regular content ]};
     seek_limit := 2 ^ 43;
     read_limit := 2 ^ 32 |}.

Definition scenario_fs : filesystem := one_file scenario_source.

(** A source with one section that holds three inner delimiters, hence two
    subsections. *)
Definition nested_source : bytes :=
  [xff; xff; xff; xff; x00; x00; x00; xaa; x00; x00; x00; xbb;
   x00; x00; x00; xff; xff; xff; xff]%byte.

Definition nested_fs : filesystem := one_file nested_source.

(** The two documents that the run on [scenario_source] prints. *)
Definition scenario_section_0 : gmap string pyval :=
  <["name" := VStr "section_0"]>
  (<["section_start" := VStr "0x0"]>
  (<["section_end" := VStr "0x8"]>
  (<["size" := VInt 8]>
  (<["is_empty" := VBool false]>
  (<["sub_sections" := VList []]> ∅))))).

Definition scenario_section_1 : gmap string pyval :=
  <["name" := VStr "section_1"]>
  (<["section_start" := VStr "0x8"]>
  (<["section_end" := VStr "0x10"]>
  (<["size" := VInt 8]>
  (<["is_empty" := VBool false]>
  (<["sub_sections" := VList []]> ∅))))).

(** The document that the run on [nested_source] prints, and its two
    subsection records. *)
Definition nested_sub_section_0 : gmap string pyval :=
  <["name" := VStr "sub_section_0"]>
  (<["start" := VStr "0x4"]>
  (<["end" := VStr "0x8"]>
  (<["offset_1" := VStr "0xf"]>
  (<["offset_2" := VStr "0x14"]>
  (<["size" := VInt 4]>
  (<["is_empty" := VBool false]> ∅)))))).

Definition nested_sub_section_1 : gmap string pyval :=
  <["name" := VStr "sub_section_1"]>
  (<["start" := VStr "0x8"]>
  (<["end" := VStr "0xc"]>
  (<["offset_1" := VStr "0x18"]>
  (<["offset_2" := VStr "0x18"]>
  (<["size" := VInt 4]>
  (<["is_empty" := VBool false]> ∅)))))).

Definition nested_section_0 : gmap string pyval :=
  <["name" := VStr "section_0"]>
  (<["section_start" := VStr "0x0"]>
  (<["section_end" := VStr "0xf"]>
  (<["size" := VInt 15]>
  (<["is_empty" := VBool false]>
  (<["sub_sections" := VList [VDict nested_sub_section_0;
                              VDict nested_sub_section_1]]> ∅))))).

(** * Properties *)

Lemma res_bind_pure {A B} (a : A) (k : A → res B) : Ok a ≫= k = k a.
Proof. reflexivity. Qed.

(** ** [hex] and [int(_, 16)] are inverse *)

Lemma digit_char_not_underscore d : Ascii.eqb (digit_char d) "_" = false.
Proof.
  unfold digit_char.
  repeat match goal with
         | |- context [match ?x with _ => _ end] => destruct x
         end; reflexivity.
Qed.

Lemma digit_value_char d : 0 ≤ d < 16 → digit_value (digit_char d) = Some d.
Proof.
  intros Hd.
  assert (Hcases : d = 0 ∨ d = 1 ∨ d = 2 ∨ d = 3 ∨ d = 4 ∨ d = 5 ∨ d = 6
                   ∨ d = 7 ∨ d = 8 ∨ d = 9 ∨ d = 10 ∨ d = 11 ∨ d = 12
                   ∨ d = 13 ∨ d = 14 ∨ d = 15) by lia.
  repeat (destruct Hcases as [-> | Hcases]; [reflexivity |]).
  subst d. reflexivity.
Qed.

Lemma parse_digits_digit d s acc :
  0 ≤ d < 16 →
  parse_digits (String (digit_char d) s) acc false
  = parse_digits s (16 * acc + d) false.
Proof.
  intros Hd. cbn [parse_digits].
  by rewrite digit_char_not_underscore, digit_value_char.
Qed.

Lemma parse_number_digit d s :
  0 ≤ d < 16 →
  parse_number (String (digit_char d) s) = parse_digits s d false.
Proof. intros Hd. cbn [parse_number]. by rewrite digit_value_char. Qed.

Lemma digits_aux_S f n s :
  digits_aux (S f) n s
  = if n / 16 =? 0 then String (digit_char (n mod 16)) s
    else digits_aux f (n / 16) (String (digit_char (n mod 16)) s).
Proof. reflexivity. Qed.

Lemma parse_number_digits_aux f n s :
  0 ≤ n < 2 ^ (Z.of_nat f + 1) →
  parse_number (digits_aux (S f) n s) = parse_digits s n false.
Proof.
  revert n s. induction f as [|f IH]; intros n s Hn;
    rewrite digits_aux_S; destruct (n / 16 =? 0) eqn:Hq.
  - apply Z.eqb_eq in Hq.
    rewrite parse_number_digit by (apply Z.mod_pos_bound; lia).
    f_equal. rewrite (Z.div_mod n 16) at 2 by lia. lia.
  - apply Z.eqb_neq in Hq. change (2 ^ (Z.of_nat 0 + 1)) with 2 in Hn.
    rewrite Z.div_small in Hq; lia.
  - apply Z.eqb_eq in Hq.
    rewrite parse_number_digit by (apply Z.mod_pos_bound; lia).
    f_equal. rewrite (Z.div_mod n 16) at 2 by lia. lia.
  - rewrite IH.
    + rewrite parse_digits_digit by (apply Z.mod_pos_bound; lia).
      f_equal. rewrite (Z.div_mod n 16) at 3 by lia. lia.
    + split; [apply Z.div_pos; lia |].
      apply Z.div_lt_upper_bound; [lia |].
      replace (Z.of_nat (S f) + 1) with (1 + (Z.of_nat f + 1)) in Hn by lia.
      rewrite Z.pow_add_r in Hn by lia. lia.
Qed.

Lemma digits_head n :
  ∃ c r, digits n = String c r ∧ Ascii.eqb c "_" = false.
Proof.
  unfold digits. generalize (Z.to_nat (Z.log2 n)) as f.
  generalize EmptyString as s. intros s f. revert n s.
  induction f as [|f IH]; intros n s; rewrite digits_aux_S;
    destruct (n / 16 =? 0); eauto using digit_char_not_underscore.
Qed.

Lemma parse_number_digits n : 0 ≤ n → parse_number (digits n) = Some n.
Proof.
  intros Hn. unfold digits. rewrite parse_number_digits_aux; [done |].
  split; [done |]. rewrite Z2Nat.id by apply Z.log2_nonneg.
  destruct (decide (n = 0)) as [-> | Hne]; [done |].
  replace (Z.log2 n + 1) with (Z.succ (Z.log2 n)) by lia.
  apply Z.log2_spec. lia.
Qed.

Lemma parse_prefixed_digits n :
  0 ≤ n → parse_prefixed ("0x" +:+ digits n) = Some n.
Proof.
  intros Hn. destruct (digits_head n) as (c & r & Hd & Hc).
  pose proof (parse_number_digits n Hn) as Hp. rewrite Hd in Hp |- *.
  cbn. destruct c as [[] [] [] [] [] [] [] []]; try done.
Qed.

Lemma int16_hex n : int16 (hex n) = Some n.
Proof.
  unfold hex. destruct (n <? 0) eqn:Hneg.
  - apply Z.ltb_lt in Hneg.
    change (int16 ("-0x" +:+ digits (- n)))
      with (Z.opp <$> parse_prefixed ("0x" +:+ digits (- n))).
    rewrite parse_prefixed_digits by lia. cbn. f_equal. lia.
  - apply Z.ltb_ge in Hneg.
    change (int16 ("0x" +:+ digits n))
      with (parse_prefixed ("0x" +:+ digits n)).
    by apply parse_prefixed_digits.
Qed.

Lemma hex_inj a b : hex a = hex b → a = b.
Proof.
  intros Heq. apply (f_equal int16) in Heq.
  rewrite !int16_hex in Heq. congruence.
Qed.

Lemma int16_res_hex n : int16_res (hex n) = Ok n.
Proof. unfold int16_res. by rewrite int16_hex. Qed.


(** ** [bytes.find] finds the first occurrence *)

Section find_facts.

Context (pattern : bytes).

Lemma startswith_prefix data :
  startswith pattern data = true ↔ pattern `prefix_of` data.
Proof.
  revert data. induction pattern as [|a pat IH]; intros data.
  - split; [intros _; apply prefix_nil | done].
  - destruct data as [|b data]; cbn [startswith].
    + split; [done |]. intros [k Hk]. discriminate.
    + rewrite andb_true_iff, IH. split.
      * intros [Hab Hpre]. apply byte_dec_bl in Hab as ->.
        by apply prefix_cons.
      * intros Hpre. pose proof (prefix_cons_inv_1 _ _ _ _ Hpre) as ->.
        apply prefix_cons_inv_2 in Hpre. split; [by apply byte_dec_lb | done].
Qed.

Lemma startswith_false data :
  startswith pattern data = false ↔ ¬ pattern `prefix_of` data.
Proof. rewrite <- startswith_prefix. by destruct (startswith pattern data). Qed.

(** [find_at] on a suffix of the buffer. *)
Lemma find_at_spec data s :
  (s ≤ length data)%nat →
  find_result data pattern s (find_at pattern (drop s data) (Z.of_nat s)).
Proof.
  remember (length data - s)%nat as k eqn:Hk. revert s Hk.
  induction k as [|k IH]; intros s Hk Hs.
  - assert (s = length data) as -> by lia.
    rewrite drop_all. cbn [find_at].
    destruct (startswith pattern []) eqn:Hsw.
    + apply startswith_prefix in Hsw. apply find_found; [done | | lia].
      split; [done |]. by rewrite drop_all.
    + apply startswith_false in Hsw. apply find_missing.
      intros q Hq [Hq' Hpre]. assert (q = length data) as -> by lia.
      by rewrite drop_all in Hpre.
  - destruct (drop s data) as [|b rest] eqn:Hdrop.
    { apply (f_equal length) in Hdrop. rewrite length_drop in Hdrop.
      cbn in Hdrop. lia. }
    cbn [find_at]. destruct (startswith pattern (b :: rest)) eqn:Hsw.
    + apply startswith_prefix in Hsw. apply find_found; [done | | lia].
      split; [done |]. by rewrite Hdrop.
    + apply startswith_false in Hsw.
      assert (Hrest : rest = drop (S s) data).
      { replace (S s) with (s + 1)%nat by lia.
        by rewrite <- drop_drop, Hdrop. }
      rewrite Hrest. replace (Z.of_nat s + 1) with (Z.of_nat (S s)) by lia.
      destruct (IH (S s)) as [p Hp Hm Hfirst | Hnone]; [lia | lia | |].
      * apply find_found; [lia | done |].
        intros q Hq. destruct (decide (q = s)) as [-> | Hne].
        -- intros [_ Hpre]. by rewrite Hdrop in Hpre.
        -- apply Hfirst. lia.
      * apply find_missing.
        intros q Hq. destruct (decide (q = s)) as [-> | Hne].
        -- intros [_ Hpre]. by rewrite Hdrop in Hpre.
        -- apply Hnone. lia.
Qed.

Lemma bytes_find_spec data s :
  find_result data pattern s (bytes_find data pattern (Z.of_nat s)).
Proof.
  unfold bytes_find, len.
  destruct (Z.of_nat s <? 0) eqn:Hneg; [apply Z.ltb_lt in Hneg; lia |].
  destruct (Z.of_nat (length data) <? Z.of_nat s) eqn:Hbeyond.
  - apply Z.ltb_lt in Hbeyond. apply find_missing.
    intros q Hq [Hq' _]. lia.
  - apply Z.ltb_ge in Hbeyond. rewrite Nat2Z.id. apply find_at_spec. lia.
Qed.

(** An occurrence of a non-empty pattern ends within the buffer. *)
Lemma match_at_end data p :
  match_at data pattern p → (p + length pattern ≤ length data)%nat.
Proof.
  intros [Hp Hpre]. apply prefix_length in Hpre.
  rewrite length_drop in Hpre. lia.
Qed.

End find_facts.

(** ** The occurrences that the scanner collects *)

Section occurrences_facts.

Context (data pattern : bytes).

Lemma occurrences_unique s occs1 occs2 :
  occurrences data pattern s occs1 →
  occurrences data pattern s occs2 →
  occs1 = occs2.
Proof.
  intros H1. revert occs2.
  induction H1 as [s Hnone | s p occs Hsp Hm Hfirst _ IH]; intros occs2 H2.
  - destruct H2 as [| s p occs Hsp Hm _ _]; [done |]. by destruct (Hnone p).
  - destruct H2 as [s Hnone | s p' occs' Hsp' Hm' Hfirst' Hrest'].
    + by destruct (Hnone p).
    + assert (p = p') as <-.
      { destruct (Nat.lt_trichotomy p p') as [Hlt | [Heq | Hgt]]; [| done |].
        - destruct (Hfirst' p); [lia | done].
        - destruct (Hfirst p'); [lia | done]. }
      f_equal. by apply IH.
Qed.

Lemma occurrences_lookup s occs i p :
  occurrences data pattern s occs →
  occs !! i = Some p →
  (s ≤ p)%nat ∧ match_at data pattern p.
Proof.
  intros Hocc. revert i.
  induction Hocc as [| s p' occs Hsp Hm _ _ IH]; intros i Hi; [done |].
  destruct i as [|i]; simplify_eq/=; [done |].
  destruct (IH i Hi). split; [lia | done].
Qed.

(** Two occurrences are at least one pattern length apart. *)
Lemma occurrences_apart s occs i j p q :
  occurrences data pattern s occs →
  (i < j)%nat →
  occs !! i = Some p →
  occs !! j = Some q →
  (p + length pattern ≤ q)%nat.
Proof.
  intros Hocc. revert i j.
  induction Hocc as [| s p' occs Hsp Hm _ Hrest IH]; intros i j Hij Hi Hj;
    [done |].
  destruct j as [|j]; [lia |]. destruct i as [|i]; simplify_eq/=.
  - by destruct (occurrences_lookup _ _ _ _ Hrest Hj).
  - apply (IH i j); [lia | done..].
Qed.

End occurrences_facts.

(** ** The two loops of [find_offsets] *)

Section scan_facts.

Context (data pattern : bytes).

Lemma scan_S fuel s offsets :
  scan (S fuel) data pattern s offsets
  = if bytes_find data pattern s =? -1 then Ok offsets
    else scan fuel data pattern (bytes_find data pattern s + len pattern)
           (offsets ++ [hex (bytes_find data pattern s)]).
Proof. reflexivity. Qed.

(** Whatever the loop returns is the list of occurrences. *)
Lemma scan_ok fuel s offsets r :
  scan fuel data pattern (Z.of_nat s) offsets = Ok r →
  ∃ occs, occurrences data pattern s occs ∧ r = offsets ++ map hex_nat occs.
Proof.
  revert s offsets. induction fuel as [|fuel IH]; intros s offsets; [done |].
  rewrite scan_S.
  destruct (bytes_find_spec pattern data s) as [p Hsp Hm Hfirst | Hnone].
  - replace (Z.of_nat p =? -1) with false by (symmetry; apply Z.eqb_neq; lia).
    unfold len. rewrite <- Nat2Z.inj_add. intros Hscan.
    destruct (IH _ _ Hscan) as (occs & Hocc & ->).
    exists (p :: occs). split; [by apply occurrences_next |].
    by rewrite <- app_assoc.
  - cbn. intros [= <-]. exists []. split; [by apply occurrences_done |].
    by rewrite app_nil_r.
Qed.

(** The loop never raises. *)
Lemma scan_no_raise fuel s offsets e :
  scan fuel data pattern s offsets ≠ Raise e.
Proof.
  revert s offsets. induction fuel as [|fuel IH]; intros s offsets; [done |].
  rewrite scan_S. by destruct (_ =? -1).
Qed.

(** With a non-empty pattern the loop ends within as many iterations as
    there are bytes from [s] on, plus one. *)
Lemma scan_returns fuel s offsets :
  pattern ≠ [] →
  (length data - s < fuel)%nat →
  ∃ occs, occurrences data pattern s occs
          ∧ scan fuel data pattern (Z.of_nat s) offsets
            = Ok (offsets ++ map hex_nat occs).
Proof.
  intros Hne. assert (0 < length pattern)%nat as Hlen.
  { destruct pattern; [done | cbn; lia]. }
  revert s offsets. induction fuel as [|fuel IH]; intros s offsets Hfuel;
    [lia |].
  rewrite scan_S.
  destruct (bytes_find_spec pattern data s) as [p Hsp Hm Hfirst | Hnone].
  - replace (Z.of_nat p =? -1) with false by (symmetry; apply Z.eqb_neq; lia).
    unfold len. rewrite <- Nat2Z.inj_add.
    pose proof (match_at_end _ _ _ Hm) as Hend.
    destruct (IH (p + length pattern)%nat (offsets ++ [hex (Z.of_nat p)]))
      as (occs & Hocc & ->); [lia |].
    exists (p :: occs). split; [by apply occurrences_next |].
    by rewrite <- app_assoc.
  - exists []. split; [by apply occurrences_done |]. cbn.
    by rewrite app_nil_r.
Qed.

Lemma pair_up_adjacent (pre rest : list string) blocks :
  pair_up (pre ++ rest) (length (pre ++ rest))
    (seq (length pre) (length rest)) blocks
  = Ok (blocks ++ adjacent rest).
Proof.
  revert pre blocks. induction rest as [|a rest IH]; intros pre blocks.
  - cbn. by rewrite app_nil_r.
  - cbn [length seq pair_up]. destruct rest as [|b rest].
    + replace (length (pre ++ [a]) <=? length pre + 1)%nat with true
        by (symmetry; apply Nat.leb_le; rewrite length_app; cbn; lia).
      cbn. by rewrite app_nil_r.
    + replace (length (pre ++ a :: b :: rest) <=? length pre + 1)%nat
        with false
        by (symmetry; apply Nat.leb_gt; rewrite length_app; cbn; lia).
      unfold getitem.
      rewrite (lookup_app_r pre (a :: b :: rest) (length pre)) by lia.
      rewrite (lookup_app_r pre (a :: b :: rest) (length pre + 1)) by lia.
      replace (length pre - length pre)%nat with 0%nat by lia.
      replace (length pre + 1 - length pre)%nat with 1%nat by lia.
      cbn [lookup list_lookup mbind res_bind].
      specialize (IH (pre ++ [a]) (blocks ++ [(a, b)])).
      replace (length (pre ++ [a])) with (S (length pre)) in IH
        by (rewrite length_app; cbn; lia).
      rewrite <- !app_assoc in IH. cbn [app] in IH.
      by rewrite IH.
Qed.

End scan_facts.

(** ** Pairs of consecutive elements *)

Section adjacent_facts.

Context {A : Type}.
Implicit Types l : list A.

Lemma adjacent_cons a b l : adjacent (a :: b :: l) = (a, b) :: adjacent (b :: l).
Proof. reflexivity. Qed.

Lemma adjacent_length l : length (adjacent l) = (length l - 1)%nat.
Proof.
  induction l as [|a [|b l] IH]; [done.. |].
  rewrite adjacent_cons. cbn [length] in *. lia.
Qed.

Lemma adjacent_lookup l i r :
  adjacent l !! i = Some r ↔ l !! i = Some r.1 ∧ l !! S i = Some r.2.
Proof.
  revert i. induction l as [|a [|b l] IH]; intros i.
  - split; [done | by intros []].
  - split; [done |]. intros [_ Hnext]. done.
  - rewrite adjacent_cons. destruct i as [|i].
    + destruct r as [x y]. cbn. split.
      * by intros [= -> ->].
      * by intros [[= ->] [= ->]].
    + cbn [lookup list_lookup]. apply IH.
Qed.

Lemma adjacent_map {B} (f : A → B) l :
  adjacent (map f l) = map (λ r, (f r.1, f r.2)) (adjacent l).
Proof.
  induction l as [|a [|b l] IH]; [done.. |].
  rewrite adjacent_cons. cbn [map].
  change (adjacent (f a :: f b :: map f l))
    with ((f a, f b) :: adjacent (map f (b :: l))).
  f_equal. apply IH.
Qed.

End adjacent_facts.

(** ** What [find_offsets] returns *)

Section find_offsets_facts.

Context (data pattern : bytes).

Lemma block_range_hex r :
  block_range (hex_block r) = Some (Z.of_nat r.1, Z.of_nat r.2).
Proof. unfold block_range, hex_block, hex_nat. cbn. by rewrite !int16_hex. Qed.

Lemma find_offsets_fuel_ok fuel blocks :
  find_offsets_fuel fuel (Some data) pattern = Ok blocks →
  ∃ occs, occurrences data pattern 0 occs
          ∧ blocks = map hex_block (adjacent occs).
Proof.
  unfold find_offsets_fuel.
  destruct (scan fuel data pattern 0 []) as [offsets | |] eqn:Hscan; [| done..].
  apply (scan_ok _ _ _ 0%nat) in Hscan as (occs & Hocc & ->).
  cbn [mbind res_bind app].
  pose proof (pair_up_adjacent [] (map hex_nat occs) []) as Hpair.
  cbn [app length] in Hpair. unfold range. rewrite Hpair.
  intros [= <-]. exists occs. split; [done |]. apply adjacent_map.
Qed.

Lemma find_offsets_fuel_returns fuel :
  pattern ≠ [] →
  (length data < fuel)%nat →
  ∃ occs, occurrences data pattern 0 occs
          ∧ find_offsets_fuel fuel (Some data) pattern
            = Ok (map hex_block (adjacent occs)).
Proof.
  intros Hne Hfuel.
  destruct (scan_returns data pattern fuel 0 [] Hne) as (occs & Hocc & Hscan);
    [lia |].
  exists occs. split; [done |]. unfold find_offsets_fuel.
  change (Z.of_nat 0) with 0 in Hscan. rewrite Hscan.
  cbn [mbind res_bind app].
  pose proof (pair_up_adjacent [] (map hex_nat occs) []) as Hpair.
  cbn [app length] in Hpair. unfold range. rewrite Hpair.
  by rewrite adjacent_map.
Qed.

End find_offsets_facts.

Lemma find_offsets_Some data pattern :
  find_offsets (Some data) pattern
  = find_offsets_fuel (S (length data)) (Some data) pattern.
Proof. reflexivity. Qed.

(** With an empty pattern every search succeeds where it starts, and the
    loop never ends. *)
Lemma scan_empty_pattern data fuel offsets :
  scan fuel data [] 0 offsets = Diverge.
Proof.
  revert offsets. induction fuel as [|fuel IH]; intros offsets; [done |].
  rewrite scan_S.
  assert (bytes_find data [] 0 = 0) as ->; [| apply IH].
  unfold bytes_find, len. cbn [Z.ltb Z.compare].
  replace (Z.of_nat (length data) <? 0) with false
    by (symmetry; apply Z.ltb_ge; lia).
  by destruct data.
Qed.

Lemma find_offsets_fuel_nonempty fuel data pattern blocks :
  find_offsets_fuel fuel (Some data) pattern = Ok blocks → pattern ≠ [].
Proof.
  intros Hok ->. unfold find_offsets_fuel in Hok.
  by rewrite scan_empty_pattern in Hok.
Qed.

(** The fuel of [find_offsets] is enough: a result obtained with any
    fuel is the result of [find_offsets]. *)
Lemma find_offsets_fuel_stable fuel data pattern blocks :
  find_offsets_fuel fuel (Some data) pattern = Ok blocks →
  find_offsets (Some data) pattern = Ok blocks.
Proof.
  intros Hok. pose proof (find_offsets_fuel_nonempty _ _ _ _ Hok) as Hne.
  apply find_offsets_fuel_ok in Hok as (occs & Hocc & ->).
  destruct (find_offsets_fuel_returns data pattern (S (length data)) Hne)
    as (occs' & Hocc' & Hret); [lia |].
  rewrite find_offsets_Some, Hret.
  by rewrite (occurrences_unique _ _ _ _ _ Hocc Hocc').
Qed.

(** ** The offset scanner: ranges, sizes, termination *)

(** C1. For every buffer and every non-empty pattern, [find_offsets]
    returns the ranges between consecutive occurrences of the pattern,
    where the occurrences are those found left to right, each search
    resuming right after the previous match. With [n] occurrences there
    are [max 0 (n - 1)] ranges; the i-th range runs from occurrence [i] to
    occurrence [i + 1]; every range starts at a position where the pattern
    occurs and ends after it starts; a later range starts no earlier than
    an earlier one ends; the last occurrence starts no range; at most one
    occurrence, or an empty buffer, gives no range. *)
Theorem find_offsets_ranges (data pattern : bytes) :
  pattern ≠ [] →
  ∃ occs : list nat,
    occurrences data pattern 0 occs
    ∧ find_offsets (Some data) pattern = Ok (map hex_block (adjacent occs))
    ∧ length (map hex_block (adjacent occs)) = Nat.max 0 (length occs - 1)
    ∧ (∀ i r, adjacent occs !! i = Some r →
         occs !! i = Some r.1 ∧ occs !! S i = Some r.2
         ∧ block_range (hex_block r) = Some (Z.of_nat r.1, Z.of_nat r.2)
         ∧ (r.1 < r.2)%nat ∧ match_at data pattern r.1)
    ∧ (∀ i j r r', (i < j)%nat →
         adjacent occs !! i = Some r → adjacent occs !! j = Some r' →
         (r.2 ≤ r'.1)%nat)
    ∧ (∀ p i r, last occs = Some p → adjacent occs !! i = Some r → r.1 ≠ p)
    ∧ ((length occs ≤ 1)%nat → find_offsets (Some data) pattern = Ok [])
    ∧ (data = [] → find_offsets (Some data) pattern = Ok []).
Proof.
  intros Hne. assert (0 < length pattern)%nat as Hlen.
  { destruct pattern; [done | cbn; lia]. }
  destruct (find_offsets_fuel_returns data pattern (S (length data)) Hne)
    as (occs & Hocc & Hret); [lia |].
  rewrite <- find_offsets_Some in Hret.
  exists occs. split_and!.
  - done.
  - done.
  - rewrite length_map, adjacent_length. lia.
  - intros i r Hr. apply adjacent_lookup in Hr as [Hi HSi].
    pose proof (occurrences_apart _ _ _ _ i (S i) _ _ Hocc
                  ltac:(lia) Hi HSi) as Hap.
    destruct (occurrences_lookup _ _ _ _ _ _ Hocc Hi) as [_ Hm].
    split_and!; [done | done | apply block_range_hex | lia | done].
  - intros i j r r' Hij Hr Hr'.
    apply adjacent_lookup in Hr as [_ HSi].
    apply adjacent_lookup in Hr' as [Hj _].
    destruct (decide (S i = j)) as [<- | Hlt].
    { assert (r.2 = r'.1) by congruence. lia. }
    pose proof (occurrences_apart _ _ _ _ (S i) j _ _ Hocc
                  ltac:(lia) HSi Hj) as Hap.
    lia.
  - intros p i r Hlast Hr Heq. subst p.
    apply adjacent_lookup in Hr as [Hi HSi].
    rewrite last_lookup in Hlast.
    pose proof (lookup_lt_Some _ _ _ HSi) as Hbound.
    pose proof (occurrences_apart _ _ _ _ i (pred (length occs)) _ _ Hocc
                  ltac:(lia) Hi Hlast) as Hap.
    lia.
  - intros Hfew. rewrite Hret.
    pose proof (adjacent_length occs) as Hadj.
    destruct (adjacent occs); [done | cbn in Hadj; lia].
  - intros ->. rewrite Hret.
    destruct Hocc as [| s p occs _ Hm _ _]; [done |].
    apply match_at_end in Hm. cbn in Hm. lia.
Qed.

Lemma find_offsets_ranges_witness :
  section_pattern ≠ []
  ∧ ∃ occs : list nat,
      occurrences scenario_source section_pattern 0 occs
      ∧ find_offsets (Some scenario_source) section_pattern
        = Ok (map hex_block (adjacent occs))
      ∧ length (map hex_block (adjacent occs)) = Nat.max 0 (length occs - 1)
      ∧ (∀ i r, adjacent occs !! i = Some r →
           occs !! i = Some r.1 ∧ occs !! S i = Some r.2
           ∧ block_range (hex_block r) = Some (Z.of_nat r.1, Z.of_nat r.2)
           ∧ (r.1 < r.2)%nat ∧ match_at scenario_source section_pattern r.1)
      ∧ (∀ i j r r', (i < j)%nat →
           adjacent occs !! i = Some r → adjacent occs !! j = Some r' →
           (r.2 ≤ r'.1)%nat)
      ∧ (∀ p i r, last occs = Some p → adjacent occs !! i = Some r → r.1 ≠ p)
      ∧ ((length occs ≤ 1)%nat
         → find_offsets (Some scenario_source) section_pattern = Ok [])
      ∧ (scenario_source = []
         → find_offsets (Some scenario_source) section_pattern = Ok []).
Proof.
  assert (Hne : section_pattern ≠ []) by discriminate.
  split; [exact Hne |].
  exact (find_offsets_ranges scenario_source section_pattern Hne).
Defined.

(** C9. Every range that the scanner returns is at least as long as the
    pattern, hence of positive size, and the test [size <= len(pattern)]
    holds of it exactly when its size is the pattern length. *)
Theorem find_offsets_range_size fuel (data pattern : bytes)
    (blocks : list block) i blk :
  find_offsets_fuel fuel (Some data) pattern = Ok blocks →
  blocks !! i = Some blk →
  ∃ s e, block_range blk = Some (s, e)
         ∧ len pattern ≤ e - s
         ∧ 0 < e - s
         ∧ ((e - s <=? len pattern) = true ↔ e - s = len pattern).
Proof.
  intros Hok Hblk.
  pose proof (find_offsets_fuel_nonempty _ _ _ _ Hok) as Hne.
  assert (0 < length pattern)%nat as Hlen.
  { destruct pattern; [done | cbn; lia]. }
  apply find_offsets_fuel_ok in Hok as (occs & Hocc & ->).
  rewrite list_lookup_fmap in Hblk.
  destruct (adjacent occs !! i) as [r |] eqn:Hr; [| done].
  injection Hblk as <-.
  apply adjacent_lookup in Hr as [Hi HSi].
  pose proof (occurrences_apart _ _ _ _ i (S i) _ _ Hocc
                ltac:(lia) Hi HSi) as Hap.
  exists (Z.of_nat r.1), (Z.of_nat r.2). unfold len.
  split; [apply block_range_hex |]. rewrite Z.leb_le. lia.
Qed.

Lemma find_offsets_range_size_witness :
  ∃ s e, block_range ("0x8", "0x10") = Some (s, e)
         ∧ len section_pattern ≤ e - s
         ∧ 0 < e - s
         ∧ ((e - s <=? len section_pattern) = true
            ↔ e - s = len section_pattern).
Proof.
  apply (find_offsets_range_size 25 scenario_source section_pattern
           [("0x0", "0x8"); ("0x8", "0x10")] 1 ("0x8", "0x10")).
  - vm_compute. reflexivity.
  - reflexivity.
Defined.

(** C10. For every buffer and every non-empty pattern the scanner
    terminates: a successful search moves the search start forward by at
    least the pattern length and not beyond the end of the buffer, and one
    iteration more than the buffer has bytes is always enough. *)
Theorem find_offsets_terminates (data pattern : bytes) :
  pattern ≠ [] →
  (∀ s, 0 ≤ s →
     let index := bytes_find data pattern s in
     index ≠ -1 →
     s < index + len pattern
     ∧ s + len pattern ≤ index + len pattern ≤ len data)
  ∧ ∃ blocks,
      find_offsets (Some data) pattern = Ok blocks
      ∧ ∀ fuel, (length data < fuel)%nat →
          find_offsets_fuel fuel (Some data) pattern = Ok blocks.
Proof.
  intros Hne. assert (0 < length pattern)%nat as Hlen.
  { destruct pattern; [done | cbn; lia]. }
  split.
  - intros s Hs index Hfound. subst index.
    rewrite <- (Z2Nat.id s) in * by done.
    destruct (bytes_find_spec pattern data (Z.to_nat s))
      as [p Hsp Hm _ | _]; [| done].
    apply match_at_end in Hm. unfold len. lia.
  - destruct (find_offsets_fuel_returns data pattern (S (length data)) Hne)
      as (occs & Hocc & Hret); [lia |].
    exists (map hex_block (adjacent occs)). split; [done |].
    intros fuel Hfuel.
    destruct (find_offsets_fuel_returns data pattern fuel Hne Hfuel)
      as (occs' & Hocc' & ->).
    by rewrite (occurrences_unique _ _ _ _ _ Hocc Hocc').
Qed.

Lemma find_offsets_terminates_witness :
  sub_section_pattern ≠ []
  ∧ (∀ s, 0 ≤ s →
       let index := bytes_find nested_source sub_section_pattern s in
       index ≠ -1 →
       s < index + len sub_section_pattern
       ∧ s + len sub_section_pattern ≤ index + len sub_section_pattern
         ≤ len nested_source)
  ∧ ∃ blocks,
      find_offsets (Some nested_source) sub_section_pattern = Ok blocks
      ∧ ∀ fuel, (length nested_source < fuel)%nat →
          find_offsets_fuel fuel (Some nested_source) sub_section_pattern
          = Ok blocks.
Proof.
  assert (Hne : sub_section_pattern ≠ []) by discriminate.
  split; [exact Hne |].
  exact (find_offsets_terminates nested_source sub_section_pattern Hne).
Defined.

(** ** The range reader *)

Ltac compare_cases :=
  repeat match goal with
         | |- context [Z.ltb ?a ?b] => destruct (Z.ltb_spec a b)
         | |- context [Z.leb ?a ?b] => destruct (Z.leb_spec a b)
         | |- context [Z.eqb ?a ?b] => destruct (Z.eqb_spec a b)
         end;
  cbn [negb andb orb].

Section seek_read_facts.

Context (fs : filesystem) (content : bytes).

Lemma seek_accepted n : seek_accepts fs content n → seek fs content n = Ok n.
Proof.
  intros [Hn Hlim]. unfold seek, representable.
  compare_cases; try done; lia.
Qed.

Lemma seek_inv n r :
  seek fs content n = r →
  (r = Ok n ∧ seek_accepts fs content n)
  ∨ (r = Raise ValueError ∧ (n < - offset_max ∨ offset_max ≤ n))
  ∨ (r = Raise OSError ∧ - offset_max ≤ n < 0)
  ∨ (r = Raise OSError ∧ 0 ≤ n < offset_max
     ∧ len content < n ∧ seek_limit fs < n).
Proof.
  intros <-. unfold seek, representable, seek_accepts.
  compare_cases; first [left; split; [done | lia]
                       | right; left; split; [done | lia]
                       | right; right; left; split; [done | lia]
                       | right; right; right; split; [done | lia]].
Qed.

Lemma read_n_inv pos n r :
  read_n fs content pos n = r →
  (r = Raise OverflowError ∧ (n < - offset_max ∨ offset_max ≤ n))
  ∨ (r = Raise ValueError ∧ - offset_max ≤ n < -1)
  ∨ (r = Ok (read_all content pos) ∧ n = -1)
  ∨ (r = Ok (take (Z.to_nat n) (drop (Z.to_nat pos) content))
     ∧ 0 ≤ n < offset_max ∧ (n ≤ len content ∨ n ≤ read_limit fs))
  ∨ (r = Raise MemoryError ∧ 0 ≤ n < offset_max
     ∧ len content < n ∧ read_limit fs < n).
Proof.
  intros <-. unfold read_n, representable.
  assert (0 < offset_max) by (unfold offset_max; lia).
  compare_cases;
    first [left; split; [done | lia]
          | right; left; split; [done | lia]
          | right; right; left; split; [done | lia]
          | right; right; right; left; split; [done | lia]
          | right; right; right; right; split; [done | lia]].
Qed.

Lemma read_n_fits pos n :
  0 ≤ n < offset_max →
  n ≤ len content ∨ n ≤ read_limit fs →
  read_n fs content pos n
  = Ok (take (Z.to_nat n) (drop (Z.to_nat pos) content)).
Proof.
  intros Hn Hfit. unfold read_n, representable.
  compare_cases; try done; lia.
Qed.

End seek_read_facts.

Section reader_facts.

Context (fs : filesystem) (filename start end_ : string).

(** The body of the [try] never loops. *)
Lemma read_body_ends : read_body fs filename start end_ ≠ Diverge.
Proof.
  unfold read_body, open_rb.
  destruct (fs !! filename) as [[content |] |]; [| done |];
    [| by destruct (has_nul filename)].
  rewrite res_bind_pure. unfold int16_res.
  destruct (int16 start) as [n |]; [| done]. rewrite res_bind_pure.
  destruct (seek_inv fs content n _ eq_refl)
    as [[-> _] | [[-> _] | [[-> _] | [-> _]]]]; [| done..].
  rewrite res_bind_pure. destruct (String.eqb end_ "end_of_file"); [done |].
  destruct (int16 end_) as [m |]; [| done]. rewrite res_bind_pure.
  by destruct (read_n_inv fs content n (m - n) _ eq_refl)
    as [[-> _] | [[-> _] | [[-> _] | [[-> _] | [-> _]]]]].
Qed.


(** It prints nothing but diagnostics, and one at most. *)
Lemma read_binary_range_in_file_diagnostics :
  Forall is_diagnostic (read_binary_range_in_file fs filename start end_).2.
Proof.
  unfold read_binary_range_in_file.
  destruct (read_body fs filename start end_) as [data | e |];
    [| destruct e |]; cbn; repeat constructor.
Qed.

(** The faults are exactly the exceptions of the [try] body. *)
Lemma read_body_fault e :
  read_fault fs filename start end_ e →
  read_body fs filename start end_ = Raise e.
Proof.
  assert (0 < offset_max) as Hmax by (unfold offset_max; lia).
  unfold read_body, open_rb.
  destruct 1 as [Hfs Hnul | Hfs Hnul | Hfs | c Hfs Hs | c n Hfs Hs Hn
                 | c n Hfs Hs Hn | c n Hfs Hs Hn Hlen Hlim
                 | c n Hfs Hs Hacc He Hend | c n m Hfs Hs Hacc He Hend Hm
                 | c n m Hfs Hs Hacc He Hend Hm
                 | c n m Hfs Hs Hacc He Hend Hm Hlen Hlim];
    rewrite Hfs; try (by rewrite Hnul); try done;
    rewrite res_bind_pure; unfold int16_res; rewrite Hs; try done;
    rewrite res_bind_pure.
  - unfold seek, representable. compare_cases; try done; lia.
  - unfold seek, representable. compare_cases; try done; lia.
  - unfold seek, representable. compare_cases; try done; lia.
  - rewrite (seek_accepted _ _ _ Hacc), res_bind_pure.
    apply String.eqb_neq in He. by rewrite He, Hend.
  - rewrite (seek_accepted _ _ _ Hacc), res_bind_pure.
    apply String.eqb_neq in He. rewrite He, Hend, res_bind_pure.
    unfold read_n, representable. compare_cases; try done; lia.
  - rewrite (seek_accepted _ _ _ Hacc), res_bind_pure.
    apply String.eqb_neq in He. rewrite He, Hend, res_bind_pure.
    unfold read_n, representable. compare_cases; try done; lia.
  - rewrite (seek_accepted _ _ _ Hacc), res_bind_pure.
    apply String.eqb_neq in He. rewrite He, Hend, res_bind_pure.
    unfold read_n, representable. compare_cases; try done; lia.
Qed.

Lemma read_body_raise e :
  read_body fs filename start end_ = Raise e →
  read_fault fs filename start end_ e.
Proof.
  unfold read_body, open_rb.
  destruct (fs !! filename) as [[content |] |] eqn:Hfs.
  - rewrite res_bind_pure. unfold int16_res.
    destruct (int16 start) as [n |] eqn:Hs;
      [| intros [= <-]; by eapply fault_start_malformed].
    rewrite res_bind_pure.
    destruct (seek_inv fs content n _ eq_refl)
      as [[-> Hacc] | [[-> Hn] | [[-> Hn] | (-> & Hn & Hlen & Hlim)]]].
    + rewrite res_bind_pure.
      destruct (String.eqb end_ "end_of_file") eqn:He; [done |].
      apply String.eqb_neq in He.
      destruct (int16 end_) as [m |] eqn:Hend;
        [| intros [= <-]; by eapply fault_end_malformed].
      rewrite res_bind_pure.
      destruct (read_n_inv fs content n (m - n) _ eq_refl)
        as [[-> Hm] | [[-> Hm] | [[-> Hm] | [(-> & Hm & Hfit)
                                            | (-> & Hm & Hlen & Hlim)]]]];
        try done; intros [= <-].
      * by eapply fault_length_unrepresentable.
      * by eapply fault_length_negative.
      * by eapply fault_length_memory.
    + intros [= <-]. by eapply fault_start_unrepresentable.
    + intros [= <-]. by eapply fault_start_negative.
    + intros [= <-]. by eapply fault_start_beyond_limit.
  - intros [= <-]. by apply fault_unreadable.
  - destruct (has_nul filename) eqn:Hnul; intros [= <-].
    + by apply fault_name_nul.
    + by apply fault_missing.
Qed.

(** Without a fault the reader returns bytes and prints nothing. *)
Lemma read_binary_range_in_file_no_fault :
  (∀ e, ¬ read_fault fs filename start end_ e) →
  ∃ data,
    read_binary_range_in_file fs filename start end_ = (Ok (Some data), []).
Proof.
  intros Hnone. unfold read_binary_range_in_file.
  pose proof read_body_ends as Hends.
  destruct (read_body fs filename start end_) as [data | e |] eqn:Hbody.
  - eauto.
  - by destruct (Hnone e (read_body_raise e Hbody)).
  - done.
Qed.

End reader_facts.

(** C7. Whenever a read meets a fault - the source does not exist, it
    cannot be opened, the start or the end is not a hexadecimal number,
    or the offsets computed from them are refused - the reader returns
    [None] to its caller instead of raising, and prints one diagnostic
    line and nothing else. *)
Theorem read_binary_range_in_file_fault (fs : filesystem)
    (filename start end_ : string) (e : exn) :
  read_fault fs filename start end_ e →
  read_binary_range_in_file fs filename start end_
  = (Ok None, [diagnostic filename e])
  ∧ is_diagnostic (diagnostic filename e).
Proof.
  intros Hfault. unfold read_binary_range_in_file.
  rewrite (read_body_fault _ _ _ _ _ Hfault). by destruct e.
Qed.

Lemma read_binary_range_in_file_fault_witness :
  read_binary_range_in_file scenario_fs "rules.airx" "0x4" "end"
  = (Ok None, [diagnostic "rules.airx" ValueError])
  ∧ is_diagnostic (diagnostic "rules.airx" ValueError).
Proof.
  apply (read_binary_range_in_file_fault scenario_fs "rules.airx" "0x4" "end").
  apply (fault_end_malformed _ _ _ _ scenario_source 4).
  - reflexivity.
  - reflexivity.
  - split; [vm_compute; split; [discriminate | reflexivity] |].
    left. vm_compute. discriminate.
  - discriminate.
  - reflexivity.
Defined.

(** ** Sequencing and loops *)

Section monad_facts.

Context {A B : Type}.

Lemma res_bind_ok (m : res A) (k : A → res B) b :
  m ≫= k = Ok b → ∃ a, m = Ok a ∧ k a = Ok b.
Proof. destruct m; [eauto | done..]. Qed.

Lemma io_bind_ok (m : io A) (k : A → io B) b outs :
  m ≫= k = (Ok b, outs) →
  ∃ a o1 o2, m = (Ok a, o1) ∧ k a = (Ok b, o2) ∧ outs = o1 ++ o2.
Proof.
  destruct m as [[a | e |] o1]; [| done..].
  unfold mbind, io_bind. cbn. destruct (k a) as [r o2] eqn:Hk. cbn.
  intros [= -> <-]. eauto 6.
Qed.

Lemma io_bind_outputs (P : out → Prop) (m : io A) (k : A → io B) :
  Forall P m.2 →
  (∀ a, m.1 = Ok a → Forall P (k a).2) →
  Forall P (m ≫= k).2.
Proof.
  destruct m as [[a | e |] o1]; unfold mbind, io_bind; cbn; [| done..].
  intros Hm Hk. apply Forall_app. eauto.
Qed.

Lemma io_bind_pure (a : A) (k : A → io B) : (Ok a, []) ≫= k = k a.
Proof. unfold mbind, io_bind. cbn. by destruct (k a). Qed.

Lemma lift_bind_pure (a : A) (k : A → io B) : lift (Ok a) ≫= k = k a.
Proof. apply io_bind_pure. Qed.

Lemma print_bind (o : out) (k : () → io B) :
  print o ≫= k = ((k ()).1, o :: (k ()).2).
Proof. reflexivity. Qed.

Lemma lift_ok (r : res A) a o : lift r = (Ok a, o) → r = Ok a ∧ o = [].
Proof. by intros [= -> <-]. Qed.

End monad_facts.

Section loop_facts.

Context {A S : Type}.

(** An invariant over the elements already visited holds when a loop
    ends. *)
Lemma for_each_res_invariant (I : list A → S → Prop) l
    (body : A → S → res S) s s' :
  I [] s →
  (∀ visited x st st',
     I visited st → body x st = Ok st' → I (visited ++ [x]) st') →
  for_each l body s = Ok s' →
  I l s'.
Proof.
  intros Hinit Hstep.
  enough (∀ visited st, I visited st → for_each l body st = Ok s' →
                        I (visited ++ l) s') as Hgen by (by apply (Hgen [])).
  induction l as [|x l IH]; intros visited st Hvis Hloop.
  - rewrite app_nil_r. by injection Hloop as <-.
  - cbn [for_each] in Hloop.
    apply res_bind_ok in Hloop as (st' & Hbody & Hloop).
    replace (visited ++ x :: l) with ((visited ++ [x]) ++ l)
      by (by rewrite <- app_assoc).
    eapply IH; eauto.
Qed.

Lemma for_each_io_invariant (I : list A → S → Prop) l
    (body : A → S → io S) s s' outs :
  I [] s →
  (∀ visited x st st' o,
     I visited st → body x st = (Ok st', o) → I (visited ++ [x]) st') →
  for_each l body s = (Ok s', outs) →
  I l s'.
Proof.
  intros Hinit Hstep.
  enough (∀ visited st o, I visited st → for_each l body st = (Ok s', o) →
                          I (visited ++ l) s') as Hgen by (by apply (Hgen [])).
  induction l as [|x l IH]; intros visited st o Hvis Hloop.
  - rewrite app_nil_r. by injection Hloop as <-.
  - cbn [for_each] in Hloop.
    apply io_bind_ok in Hloop as (st' & o1 & o2 & Hbody & Hloop & _).
    replace (visited ++ x :: l) with ((visited ++ [x]) ++ l)
      by (by rewrite <- app_assoc).
    eapply IH; eauto.
Qed.

(** What every iteration prints, the loop prints. *)
Lemma for_each_io_outputs (P : out → Prop) l (body : A → S → io S) s :
  (∀ x st, Forall P (body x st).2) →
  Forall P (for_each l body s).2.
Proof.
  intros Hbody. revert s. induction l as [|x l IH]; intros s.
  - constructor.
  - cbn [for_each]. apply io_bind_outputs; [apply Hbody | eauto].
Qed.

End loop_facts.

(** ** The records that [extract_sections] builds *)

Ltac dict_lookup :=
  repeat (rewrite lookup_insert_ne by discriminate);
  rewrite lookup_insert_eq; reflexivity.

Lemma int16_res_ok s n : int16_res s = Ok n → int16 s = Some n.
Proof. unfold int16_res. destruct (int16 s); by intros [= ->]. Qed.

Lemma getitem_Some {A} (l : list A) i x : l !! i = Some x → getitem l i = Ok x.
Proof. unfold getitem. by intros ->. Qed.

Lemma getitem_ok {A} (l : list A) i x : getitem l i = Ok x → l !! i = Some x.
Proof. unfold getitem. destruct (l !! i); by intros [= ->]. Qed.

Section record_facts.

Context (fs : filesystem) (filename : string).

Lemma sub_section_step_ok ranges section_end j subs subs' :
  sub_section_step ranges section_end j subs = Ok subs' →
  (j < length subs)%nat
  ∧ ∃ sub, subs' = <[j := VDict sub]> subs
           ∧ sub_section_wf section_end j sub.
Proof.
  unfold sub_section_step. intros Hstep.
  apply res_bind_ok in Hstep as (rng & _ & Hstep).
  apply res_bind_ok in Hstep as (s & Hs%int16_res_ok & Hstep).
  apply res_bind_ok in Hstep as (e & He%int16_res_ok & Hstep).
  unfold setitem in Hstep. case_decide as Hj; [| done].
  injection Hstep as <-. split; [done |].
  eexists. split; [reflexivity |].
  exists s, e. unfold hex_field. split_and!.
  - exists rng.1. split; [dict_lookup | done].
  - exists rng.2. split; [dict_lookup | done].
  - dict_lookup.
  - dict_lookup.
  - dict_lookup.
  - dict_lookup.
Qed.

Lemma sub_sections_loop_ok ranges section_end n subs :
  for_each (range n) (sub_section_step ranges section_end)
    (replicate n (VDict ∅)) = Ok subs →
  ∀ j sv, subs !! j = Some sv →
    ∃ sub, sv = VDict sub ∧ sub_section_wf section_end j sub.
Proof.
  intros Hloop.
  apply (for_each_res_invariant
           (λ visited st, length st = n
              ∧ ∀ j sv, st !! j = Some sv → j ∈ visited →
                  ∃ sub, sv = VDict sub ∧ sub_section_wf section_end j sub))
    in Hloop.
  - destruct Hloop as [Hlen Hall]. intros j sv Hj. apply Hall; [done |].
    apply lookup_lt_Some in Hj. unfold range. apply elem_of_seq. lia.
  - split; [apply length_replicate |]. intros j sv _ Hin.
    by apply elem_of_nil in Hin.
  - intros visited x st st' [Hlen Hall] Hstep.
    apply sub_section_step_ok in Hstep as (Hx & sub & -> & Hwf).
    split; [by rewrite length_insert |].
    intros j sv Hj Hin. destruct (decide (j = x)) as [-> | Hne].
    + rewrite list_lookup_insert_eq in Hj by done.
      injection Hj as <-. eauto.
    + rewrite list_lookup_insert_ne in Hj by done.
      apply Hall; [done |].
      apply elem_of_app in Hin as [Hin | Hin]; [done |].
      apply list_elem_of_singleton in Hin. done.
Qed.

Lemma section_step_ok sections i acc acc' o :
  section_step fs filename sections i acc = (Ok acc', o) →
  ∃ doc, acc' = acc ++ [doc] ∧ section_value_wf doc.
Proof.
  unfold section_step. intros Hstep.
  apply io_bind_ok in Hstep as (sec & ? & ? & _ & Hstep & _).
  apply io_bind_ok in Hstep as (s & ? & ? & Hs & Hstep & _).
  apply lift_ok in Hs as [Hs%int16_res_ok _].
  apply io_bind_ok in Hstep as (e & ? & ? & He & Hstep & _).
  apply lift_ok in He as [He%int16_res_ok _].
  apply io_bind_ok in Hstep as (sub_section & ? & ? & _ & Hstep & _).
  apply io_bind_ok in Hstep as (ranges & ? & ? & _ & Hstep & _).
  apply io_bind_ok in Hstep as (subs & ? & ? & Hsubs & Hstep & _).
  apply lift_ok in Hsubs as [Hsubs _].
  injection Hstep as <-.
  eexists. split; [reflexivity |]. eexists. split; [reflexivity |].
  exists s, e, subs. unfold hex_field. split_and!.
  - exists sec.1. split; [dict_lookup | done].
  - exists sec.2. split; [dict_lookup | done].
  - dict_lookup.
  - dict_lookup.
  - dict_lookup.
  - by apply (sub_sections_loop_ok _ _ _ _ Hsubs).
Qed.

Lemma section_step_outputs sections i acc :
  Forall is_diagnostic (section_step fs filename sections i acc).2.
Proof.
  unfold section_step.
  apply io_bind_outputs; [constructor |]. intros sec _.
  apply io_bind_outputs; [constructor |]. intros s _.
  apply io_bind_outputs; [constructor |]. intros e _.
  apply io_bind_outputs; [apply read_binary_range_in_file_diagnostics |].
  intros sub_section _.
  apply io_bind_outputs; [constructor |]. intros ranges _.
  apply io_bind_outputs; [constructor |]. intros subs _.
  constructor.
Qed.

Lemma sections_loop_ok sections acc o :
  for_each (range (length sections)) (section_step fs filename sections) []
  = (Ok acc, o) →
  Forall section_value_wf acc.
Proof.
  apply (for_each_io_invariant (λ _ st, Forall section_value_wf st)).
  - constructor.
  - intros _ x st st' o' Hst Hstep.
    apply section_step_ok in Hstep as (doc & -> & Hdoc).
    apply Forall_app. split; [done |]. by constructor.
Qed.

Lemma is_diagnostic_wf o : is_diagnostic o → out_wf o.
Proof. by destruct o. Qed.

(** Every line that a run prints is in order. *)
Lemma extract_sections_outputs :
  Forall out_wf (extract_sections fs filename).2.
Proof.
  unfold extract_sections.
  apply io_bind_outputs.
  { eapply Forall_impl; [apply read_binary_range_in_file_diagnostics |].
    apply is_diagnostic_wf. }
  intros data _. apply io_bind_outputs; [constructor |]. intros sections _.
  apply io_bind_outputs.
  { eapply Forall_impl; [| apply is_diagnostic_wf].
    apply for_each_io_outputs. intros. apply section_step_outputs. }
  intros extracted Hloop.
  destruct (for_each _ _ _) as [r o] eqn:Hfor in Hloop. cbn in Hloop.
  subst r. apply sections_loop_ok in Hfor.
  apply for_each_io_outputs. intros i [].
  apply io_bind_outputs; [constructor |]. intros doc Hdoc.
  cbn in Hdoc. apply getitem_ok in Hdoc.
  constructor; [| constructor]. cbn.
  by apply (Forall_lookup_1 _ _ _ _ Hfor Hdoc).
Qed.

Lemma emits_section_wf sec : emits_section fs filename sec → section_wf sec.
Proof.
  intros [k Hk].
  pose proof (Forall_lookup_1 _ _ _ _ extract_sections_outputs Hk) as Hwf.
  destruct Hwf as (sec' & [= <-] & Hwf). done.
Qed.

Lemma hex_field_unique d k n m : hex_field d k n → hex_field d k m → n = m.
Proof. intros (h & Hh & Hn) (h' & Hh' & Hm). congruence. Qed.

End record_facts.

(** ** The runs on the sample inputs *)

Lemma map_hex_nat_inj occs1 occs2 :
  map hex_nat occs1 = map hex_nat occs2 → occs1 = occs2.
Proof.
  revert occs2. induction occs1 as [|a occs1 IH]; intros [|b occs2] Heq;
    try done.
  injection Heq as Hab Hrest. apply hex_inj in Hab.
  f_equal; [lia | by apply IH].
Qed.

(** The occurrences in a buffer, read off a run of the scanning loop. *)
Lemma occurrences_of_scan data pattern fuel occs :
  scan fuel data pattern 0 [] = Ok (map hex_nat occs) →
  occurrences data pattern 0 occs.
Proof.
  intros Hscan. apply (scan_ok _ _ _ 0%nat) in Hscan as (occs' & Hocc & Heq).
  cbn [app] in Heq. by apply map_hex_nat_inj in Heq as ->.
Qed.

Lemma scenario_run :
  extract_sections scenario_fs "rules.airx"
  = (Ok (), [OutJson (VDict scenario_section_0);
             OutJson (VDict scenario_section_1)]).
Proof. vm_compute. reflexivity. Qed.

Lemma nested_run :
  extract_sections nested_fs "rules.airx"
  = (Ok (), [OutJson (VDict nested_section_0)]).
Proof. vm_compute. reflexivity. Qed.

Lemma nested_emits : emits_section nested_fs "rules.airx" nested_section_0.
Proof. exists 0%nat. by rewrite nested_run. Qed.

Lemma nested_sub_0 : sub_section_of nested_section_0 0 nested_sub_section_0.
Proof. eexists. split; reflexivity. Qed.

Lemma nested_sub_1 : sub_section_of nested_section_0 1 nested_sub_section_1.
Proof. eexists. split; reflexivity. Qed.

(** ** The emitted records *)

(** What a subsection record of an emitted section holds. *)
Lemma emits_sub_section_wf fs filename sec j sub :
  emits_section fs filename sec →
  sub_section_of sec j sub →
  ∃ se, hex_field sec "section_end" se ∧ sub_section_wf se j sub.
Proof.
  intros Hsec (subs & Hsubs & Hj).
  apply emits_section_wf in Hsec
    as (s & e & subs' & _ & He & _ & _ & Hsubs' & Hall).
  assert (subs' = subs) as -> by congruence.
  destruct (Hall _ _ Hj) as (sub' & [= <-] & Hwf). eauto.
Qed.

(** C2, as amended. For every emitted section and every subsection of
    it with local index [j > 0], [offset_1] and [offset_2] both are the
    local end of the subsection plus the end of the section minus the
    length of the inner pattern, which is 3. *)
Theorem offsets_after_first (fs : filesystem) (filename : string)
    (sec : gmap string pyval) (j : nat) (sub : gmap string pyval) :
  emits_section fs filename sec →
  sub_section_of sec j sub →
  (0 < j)%nat →
  ∃ e se,
    hex_field sub "end" e
    ∧ hex_field sec "section_end" se
    ∧ sub !! "offset_1"
      = Some (VStr (hex (e + (se - len sub_section_pattern))))
    ∧ sub !! "offset_2"
      = Some (VStr (hex (e + (se - len sub_section_pattern))))
    ∧ len sub_section_pattern = 3.
Proof.
  intros Hsec Hsub Hj.
  destruct (emits_sub_section_wf _ _ _ _ _ Hsec Hsub)
    as (se & Hse & s & e & _ & He & _ & _ & Ho1 & Ho2).
  exists e, se. split_and!; [done | done | | | done].
  - rewrite Ho1. replace (j =? 0)%nat with false
      by (symmetry; apply Nat.eqb_neq; lia).
    do 3 f_equal. lia.
  - rewrite Ho2. do 3 f_equal. lia.
Qed.

Lemma offsets_after_first_witness :
  ∃ e se,
    hex_field nested_sub_section_1 "end" e
    ∧ hex_field nested_section_0 "section_end" se
    ∧ nested_sub_section_1 !! "offset_1"
      = Some (VStr (hex (e + (se - len sub_section_pattern))))
    ∧ nested_sub_section_1 !! "offset_2"
      = Some (VStr (hex (e + (se - len sub_section_pattern))))
    ∧ len sub_section_pattern = 3.
Proof.
  apply (offsets_after_first nested_fs "rules.airx" nested_section_0 1
           nested_sub_section_1).
  - exists 0%nat. vm_compute. reflexivity.
  - eexists. split; reflexivity.
  - lia.
Defined.

(** C2, as stated, fails: in the run on [nested_source] the second
    subsection ends at 12 in a section that ends at 15, and its offsets
    are 24, not 12 + (15 - 4) = 23. *)
Lemma offsets_after_first_outer_pattern_counterexample :
  ¬ (∀ (fs : filesystem) (filename : string) (sec : gmap string pyval)
       (j : nat) (sub : gmap string pyval),
       emits_section fs filename sec →
       sub_section_of sec j sub →
       (0 < j)%nat →
       ∃ e se,
         hex_field sub "end" e
         ∧ hex_field sec "section_end" se
         ∧ sub !! "offset_1"
           = Some (VStr (hex (e + (se - len section_pattern))))
         ∧ sub !! "offset_2"
           = Some (VStr (hex (e + (se - len section_pattern))))).
Proof.
  intros Hclaim.
  destruct (Hclaim nested_fs "rules.airx" nested_section_0 1%nat
              nested_sub_section_1 nested_emits nested_sub_1 ltac:(lia))
    as (e & se & (h & Hh & He) & (h' & Hh' & Hse) & Ho1 & _).
  vm_compute in Hh. injection Hh as <-.
  vm_compute in Hh'. injection Hh' as <-.
  vm_compute in He. injection He as <-.
  vm_compute in Hse. injection Hse as <-.
  vm_compute in Ho1. discriminate.
Qed.

(** C3, as amended. The run on the source of the scenario prints two
    sections, the ranges [0, 8) and [8, 16), between the outer delimiters
    at 0, 8 and 16. Neither has a subsection: the scan of the bytes of
    each finds the inner delimiter once, at local position 4, and one
    occurrence starts no range. *)
Theorem scenario_sections :
  occurrences scenario_source section_pattern 0 [0; 8; 16]%nat
  ∧ occurrences (take 8 scenario_source) sub_section_pattern 0 [4%nat]
  ∧ occurrences (take 8 (drop 8 scenario_source)) sub_section_pattern 0
      [4%nat]
  ∧ find_offsets (Some scenario_source) section_pattern
    = Ok [("0x0", "0x8"); ("0x8", "0x10")]
  ∧ block_range ("0x0", "0x8") = Some (0, 8)
  ∧ block_range ("0x8", "0x10") = Some (8, 16)
  ∧ read_binary_range_in_file scenario_fs "rules.airx" "0x0" "0x8"
    = (Ok (Some (take 8 scenario_source)), [])
  ∧ read_binary_range_in_file scenario_fs "rules.airx" "0x8" "0x10"
    = (Ok (Some (take 8 (drop 8 scenario_source))), [])
  ∧ find_offsets (Some (take 8 scenario_source)) sub_section_pattern = Ok []
  ∧ find_offsets (Some (take 8 (drop 8 scenario_source))) sub_section_pattern
    = Ok []
  ∧ extract_sections scenario_fs "rules.airx"
    = (Ok (), [OutJson (VDict scenario_section_0);
               OutJson (VDict scenario_section_1)])
  ∧ scenario_section_0 !! "sub_sections" = Some (VList [])
  ∧ scenario_section_1 !! "sub_sections" = Some (VList []).
Proof.
  split_and!;
    try (apply (occurrences_of_scan _ _ 25)); vm_compute; reflexivity.
Qed.

(** C3, as stated, fails: the run does not print two sections with the
    ranges [0, 11) and [11, 23) and one subsection each. *)
Lemma scenario_sections_counterexample :
  ¬ (∃ sec0 sec1 sub0 sub1,
       (extract_sections scenario_fs "rules.airx").2
       = [OutJson (VDict sec0); OutJson (VDict sec1)]
       ∧ hex_field sec0 "section_start" 0
       ∧ hex_field sec0 "section_end" 11
       ∧ hex_field sec1 "section_start" 11
       ∧ hex_field sec1 "section_end" 23
       ∧ sec0 !! "sub_sections" = Some (VList [sub0])
       ∧ sec1 !! "sub_sections" = Some (VList [sub1])).
Proof.
  intros (sec0 & sec1 & sub0 & sub1 & Hout & _ & (h & Hh & Hn) & _).
  rewrite scenario_run in Hout. injection Hout as <- <-.
  vm_compute in Hh. injection Hh as <-.
  vm_compute in Hn. discriminate.
Qed.

(** C4. In every emitted section record and every emitted subsection
    record, [is_empty] is true exactly when the size, which is the end
    minus the start, is at most the length of the pattern of its level:
    4 for a section, 3 for a subsection. *)
Theorem is_empty_iff_small (fs : filesystem) (filename : string)
    (sec : gmap string pyval) :
  emits_section fs filename sec →
  (∃ s e b,
     hex_field sec "section_start" s
     ∧ hex_field sec "section_end" e
     ∧ sec !! "size" = Some (VInt (e - s))
     ∧ sec !! "is_empty" = Some (VBool b)
     ∧ (b = true ↔ e - s ≤ len section_pattern)
     ∧ len section_pattern = 4)
  ∧ ∀ j sub, sub_section_of sec j sub →
      ∃ s e b,
        hex_field sub "start" s
        ∧ hex_field sub "end" e
        ∧ sub !! "size" = Some (VInt (e - s))
        ∧ sub !! "is_empty" = Some (VBool b)
        ∧ (b = true ↔ e - s ≤ len sub_section_pattern)
        ∧ len sub_section_pattern = 3.
Proof.
  intros Hsec. split.
  - apply emits_section_wf in Hsec
      as (s & e & subs & Hs & He & Hsize & Hempty & _).
    exists s, e, (e - s <=? len section_pattern).
    split_and!; [done.. | apply Z.leb_le | done].
  - intros j sub Hsub.
    destruct (emits_sub_section_wf _ _ _ _ _ Hsec Hsub)
      as (se & _ & s & e & Hs & He & Hsize & Hempty & _).
    exists s, e, (e - s <=? len sub_section_pattern).
    split_and!; [done.. | apply Z.leb_le | done].
Qed.

Lemma is_empty_iff_small_witness :
  (∃ s e b,
     hex_field nested_section_0 "section_start" s
     ∧ hex_field nested_section_0 "section_end" e
     ∧ nested_section_0 !! "size" = Some (VInt (e - s))
     ∧ nested_section_0 !! "is_empty" = Some (VBool b)
     ∧ (b = true ↔ e - s ≤ len section_pattern)
     ∧ len section_pattern = 4)
  ∧ ∀ j sub, sub_section_of nested_section_0 j sub →
      ∃ s e b,
        hex_field sub "start" s
        ∧ hex_field sub "end" e
        ∧ sub !! "size" = Some (VInt (e - s))
        ∧ sub !! "is_empty" = Some (VBool b)
        ∧ (b = true ↔ e - s ≤ len sub_section_pattern)
        ∧ len sub_section_pattern = 3.
Proof.
  apply (is_empty_iff_small nested_fs "rules.airx" nested_section_0).
  exists 0%nat. vm_compute. reflexivity.
Defined.

(** C5. For every subsection with local index [j > 0], the emitted
    [offset_1] is the emitted [offset_2]. *)
Theorem offsets_coincide_after_first (fs : filesystem) (filename : string)
    (sec : gmap string pyval) (j : nat) (sub : gmap string pyval) :
  emits_section fs filename sec →
  sub_section_of sec j sub →
  (0 < j)%nat →
  ∃ o, sub !! "offset_1" = Some (VStr o) ∧ sub !! "offset_2" = Some (VStr o).
Proof.
  intros Hsec Hsub Hj.
  destruct (emits_sub_section_wf _ _ _ _ _ Hsec Hsub)
    as (se & _ & s & e & _ & _ & _ & _ & Ho1 & Ho2).
  replace (j =? 0)%nat with false in Ho1
    by (symmetry; apply Nat.eqb_neq; lia).
  eauto.
Qed.

Lemma offsets_coincide_after_first_witness :
  ∃ o, nested_sub_section_1 !! "offset_1" = Some (VStr o)
       ∧ nested_sub_section_1 !! "offset_2" = Some (VStr o).
Proof.
  apply (offsets_coincide_after_first nested_fs "rules.airx"
           nested_section_0 1 nested_sub_section_1).
  - exists 0%nat. vm_compute. reflexivity.
  - eexists. split; reflexivity.
  - lia.
Defined.

(** C6. For the first subsection of every section, the emitted
    [offset_1] is the local start of the subsection plus the end of the
    section minus the length of the outer pattern, which is 4. *)
Theorem offset_1_of_first (fs : filesystem) (filename : string)
    (sec sub : gmap string pyval) :
  emits_section fs filename sec →
  sub_section_of sec 0 sub →
  ∃ s se,
    hex_field sub "start" s
    ∧ hex_field sec "section_end" se
    ∧ sub !! "offset_1" = Some (VStr (hex (s + (se - len section_pattern))))
    ∧ len section_pattern = 4.
Proof.
  intros Hsec Hsub.
  destruct (emits_sub_section_wf _ _ _ _ _ Hsec Hsub)
    as (se & Hse & s & e & Hs & _ & _ & _ & Ho1 & _).
  exists s, se. split_and!; [done | done | | done].
  rewrite Ho1. cbn [Nat.eqb]. do 3 f_equal. lia.
Qed.

Lemma offset_1_of_first_witness :
  ∃ s se,
    hex_field nested_sub_section_0 "start" s
    ∧ hex_field nested_section_0 "section_end" se
    ∧ nested_sub_section_0 !! "offset_1"
      = Some (VStr (hex (s + (se - len section_pattern))))
    ∧ len section_pattern = 4.
Proof.
  apply (offset_1_of_first nested_fs "rules.airx" nested_section_0
           nested_sub_section_0).
  - exists 0%nat. vm_compute. reflexivity.
  - eexists. split; reflexivity.
Defined.

(** C8. If the read of the whole file fails, the run ends there with an
    exception that nothing catches; what it has printed is the
    diagnostic of the reader, and no section record. *)
Theorem extract_sections_read_failure (fs : filesystem) (filename : string)
    (diags : list out) :
  read_binary_range_in_file fs filename "0" "end_of_file" = (Ok None, diags) →
  extract_sections fs filename = (Raise AttributeError, diags)
  ∧ Forall is_diagnostic diags
  ∧ ∀ sec, ¬ emits_section fs filename sec.
Proof.
  intros Hread.
  assert (Hrun : extract_sections fs filename = (Raise AttributeError, diags)).
  { unfold extract_sections. rewrite Hread.
    unfold mbind at 1, io_bind at 1. cbn. by rewrite app_nil_r. }
  assert (Hdiags : Forall is_diagnostic diags).
  { pose proof (read_binary_range_in_file_diagnostics
                  fs filename "0" "end_of_file") as Hd.
    by rewrite Hread in Hd. }
  split_and!; [done | done |].
  intros sec [k Hk]. rewrite Hrun in Hk. cbn in Hk.
  by apply (Forall_lookup_1 _ _ _ _ Hdiags) in Hk.
Qed.

Lemma extract_sections_read_failure_witness :
  extract_sections scenario_fs "missing.airx"
  = (Raise AttributeError, [OutNotFound "missing.airx"])
  ∧ Forall is_diagnostic [OutNotFound "missing.airx"]
  ∧ ∀ sec, ¬ emits_section scenario_fs "missing.airx" sec.
Proof.
  apply (extract_sections_read_failure scenario_fs "missing.airx"
           [OutNotFound "missing.airx"]).
  vm_compute. reflexivity.
Defined.

(** ** A run on a readable file completes *)

Section progress_facts.

Context {A S : Type}.

(** A loop whose every iteration returns does return. *)
Lemma for_each_res_progress (J : S → Prop) (l : list A)
    (body : A → S → res S) s :
  J s →
  (∀ x st, x ∈ l → J st → ∃ st', body x st = Ok st' ∧ J st') →
  ∃ s', for_each l body s = Ok s' ∧ J s'.
Proof.
  revert s. induction l as [|x l IH]; intros s Hs Hbody; [by exists s |].
  destruct (Hbody x s) as (st' & Hx & Hst'); [left | done |].
  cbn [for_each]. rewrite Hx. cbn.
  apply IH; [done |]. intros y st Hy. apply Hbody. by right.
Qed.

Lemma for_each_io_progress (J : S → Prop) (l : list A)
    (body : A → S → io S) s :
  J s →
  (∀ x st, x ∈ l → J st → ∃ st', body x st = (Ok st', []) ∧ J st') →
  ∃ s', for_each l body s = (Ok s', []) ∧ J s'.
Proof.
  revert s. induction l as [|x l IH]; intros s Hs Hbody; [by exists s |].
  destruct (Hbody x s) as (st' & Hx & Hst'); [left | done |].
  cbn [for_each]. rewrite Hx, io_bind_pure.
  apply IH; [done |]. intros y st Hy. apply Hbody. by right.
Qed.

End progress_facts.

Section completion_facts.

Context (fs : filesystem) (filename : string) (content : bytes).
Hypothesis Hfile : fs !! filename = Some (Regular content).
Hypothesis Hsize : len content < offset_max.

Lemma open_rb_regular : open_rb fs filename = Ok content.
Proof. unfold open_rb. by rewrite Hfile. Qed.

Lemma read_whole_file :
  read_binary_range_in_file fs filename "0" "end_of_file"
  = (Ok (Some content), []).
Proof.
  unfold read_binary_range_in_file, read_body.
  rewrite open_rb_regular, res_bind_pure.
  change (int16_res "0") with (Ok 0 : res Z).
  rewrite res_bind_pure, seek_accepted; [done |].
  split; [unfold offset_max; lia | left; unfold len; lia].
Qed.

Lemma int16_res_hex_nat p : int16_res (hex_nat p) = Ok (Z.of_nat p).
Proof. apply int16_res_hex. Qed.

Lemma hex_nat_not_sentinel p : String.eqb (hex_nat p) "end_of_file" = false.
Proof.
  unfold hex_nat, hex.
  by replace (Z.of_nat p <? 0) with false by (symmetry; apply Z.ltb_ge; lia).
Qed.

Lemma read_range (a b : nat) :
  (a ≤ b ≤ length content)%nat →
  read_binary_range_in_file fs filename (hex_nat a) (hex_nat b)
  = (Ok (Some (take (b - a) (drop a content))), []).
Proof.
  intros Hab. unfold len in Hsize.
  unfold read_binary_range_in_file, read_body.
  rewrite open_rb_regular, res_bind_pure, (int16_res_hex_nat a), res_bind_pure.
  rewrite seek_accepted by (split; [lia | left; unfold len; lia]).
  rewrite res_bind_pure, hex_nat_not_sentinel, (int16_res_hex_nat b).
  rewrite res_bind_pure.
  rewrite read_n_fits by first [lia | left; unfold len; lia].
  rewrite Nat2Z.id. do 4 f_equal. lia.
Qed.

Lemma sub_sections_loop_returns (occs : list nat) section_end :
  ∃ subs,
    for_each (range (length (adjacent occs)))
      (sub_section_step (map hex_block (adjacent occs)) section_end)
      (replicate (length (adjacent occs)) (VDict ∅))
    = Ok subs.
Proof.
  destruct (for_each_res_progress
              (λ st : list pyval, length st = length (adjacent occs))
              (range (length (adjacent occs)))
              (sub_section_step (map hex_block (adjacent occs)) section_end)
              (replicate (length (adjacent occs)) (VDict ∅)))
    as (subs & Hsubs & _); [apply length_replicate | | by exists subs].
  intros j st Hj Hst. apply elem_of_seq in Hj.
  destruct (lookup_lt_is_Some_2 (adjacent occs) j) as [r Hr]; [lia |].
  unfold sub_section_step, getitem.
  rewrite list_lookup_fmap, Hr. cbn [fmap option_fmap option_map mbind res_bind].
  unfold hex_block, hex_nat. cbn [fst snd]. rewrite !int16_res_hex.
  cbn [mbind res_bind]. unfold setitem.
  case_decide; [| lia]. eexists. split; [reflexivity |].
  by rewrite length_insert.
Qed.

Lemma section_step_returns occs i acc :
  occurrences content section_pattern 0 occs →
  (i < length (adjacent occs))%nat →
  ∃ doc,
    section_step fs filename (map hex_block (adjacent occs)) i acc
    = (Ok (acc ++ [doc]), []).
Proof.
  intros Hocc Hi.
  destruct (lookup_lt_is_Some_2 (adjacent occs) i) as [r Hr]; [lia |].
  pose proof Hr as Hr'. apply adjacent_lookup in Hr' as [Hstart Hend].
  pose proof (occurrences_apart _ _ _ _ i (S i) _ _ Hocc
                ltac:(lia) Hstart Hend) as Hap.
  destruct (occurrences_lookup _ _ _ _ _ _ Hocc Hend) as [_ [Hin _]].
  assert (Hsec : map hex_block (adjacent occs) !! i = Some (hex_block r))
    by (by rewrite list_lookup_fmap, Hr).
  unfold section_step.
  rewrite (getitem_Some _ _ _ Hsec), lift_bind_pure.
  change (hex_block r).1 with (hex_nat r.1).
  change (hex_block r).2 with (hex_nat r.2).
  rewrite (int16_res_hex_nat r.1), lift_bind_pure.
  rewrite (int16_res_hex_nat r.2), lift_bind_pure.
  rewrite read_range by lia. rewrite io_bind_pure.
  destruct (find_offsets_fuel_returns (take (r.2 - r.1) (drop r.1 content))
              sub_section_pattern
              (S (length (take (r.2 - r.1) (drop r.1 content)))))
    as (occs' & _ & Hfind); [discriminate | lia |].
  rewrite <- find_offsets_Some in Hfind.
  rewrite Hfind, lift_bind_pure, length_map.
  destruct (sub_sections_loop_returns occs' (Z.of_nat r.2)) as [subs ->].
  rewrite lift_bind_pure. eexists. reflexivity.
Qed.

Lemma print_loop_returns (pre rest : list pyval) :
  for_each (seq (length pre) (length rest))
    (λ i (_ : ()),
       doc ← lift (getitem (pre ++ rest) i); print (OutJson doc)) ()
  = (Ok (), map OutJson rest).
Proof.
  revert pre. induction rest as [|doc rest IH]; intros pre; [done |].
  cbn [length seq for_each]. cbv beta.
  assert (Hdoc : (pre ++ doc :: rest) !! length pre = Some doc).
  { rewrite lookup_app_r by lia.
    by replace (length pre - length pre)%nat with 0%nat by lia. }
  rewrite (getitem_Some _ _ _ Hdoc), lift_bind_pure.
  specialize (IH (pre ++ [doc])).
  rewrite <- app_assoc, length_app in IH. cbn [app length] in IH.
  replace (length pre + 1)%nat with (S (length pre)) in IH by lia.
  rewrite print_bind, IH. reflexivity.
Qed.

(** On a regular file the run ends normally and prints one record for
    each range between consecutive outer delimiters, and nothing else. *)
Lemma extract_sections_completes :
  ∃ occs docs,
    occurrences content section_pattern 0 occs
    ∧ extract_sections fs filename = (Ok (), map OutJson docs)
    ∧ length docs = length (adjacent occs)
    ∧ Forall section_value_wf docs.
Proof.
  destruct (find_offsets_fuel_returns content section_pattern
              (S (length content))) as (occs & Hocc & Hfind);
    [discriminate | lia |].
  rewrite <- find_offsets_Some in Hfind.
  destruct (for_each_io_progress (λ _ : list pyval, True)
              (range (length (adjacent occs)))
              (section_step fs filename (map hex_block (adjacent occs))) [])
    as (docs & Hloop & _); [done | |].
  { intros i st Hi _. apply elem_of_seq in Hi.
    destruct (section_step_returns occs i st Hocc) as [doc Hdoc]; [lia |].
    eauto. }
  assert (Hlen : length docs = length (adjacent occs)).
  { pose proof Hloop as Hinv.
    apply (for_each_io_invariant
             (λ visited st, length st = length visited)) in Hinv.
    - unfold range in Hinv. by rewrite length_seq in Hinv.
    - done.
    - intros visited x st st' o Hst Hstep.
      apply section_step_ok in Hstep as (doc & -> & _).
      rewrite !length_app, Hst. done. }
  exists occs, docs. split_and!; [done | | done |].
  - unfold extract_sections. rewrite read_whole_file, io_bind_pure.
    rewrite Hfind, lift_bind_pure.
    rewrite length_map, Hloop, io_bind_pure.
    apply (print_loop_returns [] docs).
  - rewrite <- (length_map hex_block) in Hloop.
    by apply sections_loop_ok in Hloop.
Qed.

End completion_facts.

(** ** Evaluations *)

Example hex_11 : hex 11 = "0xb".
Proof. reflexivity. Qed.

Example hex_0 : hex 0 = "0x0".
Proof. reflexivity. Qed.

Example hex_256 : hex 256 = "0x100".
Proof. reflexivity. Qed.

Example hex_negative : hex (-26) = "-0x1a".
Proof. reflexivity. Qed.

Example int16_default_start : int16 "0" = Some 0.
Proof. reflexivity. Qed.

Example int16_mixed_case : int16 " 0XfF " = Some 255.
Proof. reflexivity. Qed.

Example int16_underscores : int16 "0x_1_0" = Some 16.
Proof. reflexivity. Qed.

Example int16_negative : int16 "-0x1a" = Some (-26).
Proof. reflexivity. Qed.

Example int16_prefix_only : int16 "0x" = None.
Proof. reflexivity. Qed.

Example int16_double_underscore : int16 "1__0" = None.
Proof. reflexivity. Qed.

Example int16_sentinel : int16 "end_of_file" = None.
Proof. reflexivity. Qed.

Example int16_inner_space : int16 "0x12 3" = None.
Proof. reflexivity. Qed.

Example find_from_2 :
  bytes_find [x61; x62; x63; x61; x62; x63]%byte [x62; x63]%byte 2 = 4.
Proof. reflexivity. Qed.

Example find_from_end :
  bytes_find [x61; x62; x63; x61; x62; x63]%byte [x62; x63]%byte (-2) = 4.
Proof. reflexivity. Qed.

Example find_nothing :
  bytes_find [x61; x62; x63; x61; x62; x63]%byte [x7a]%byte 0 = -1.
Proof. reflexivity. Qed.

Example find_empty_at_end :
  bytes_find [x61; x62; x63]%byte [] 3 = 3.
Proof. reflexivity. Qed.

Example find_empty_beyond_end :
  bytes_find [x61; x62; x63]%byte [] 4 = -1.
Proof. reflexivity. Qed.

Example find_offsets_empty_buffer :
  find_offsets (Some []) section_pattern = Ok [].
Proof. reflexivity. Qed.

Example find_offsets_one_occurrence :
  find_offsets (Some [xff; xff; xff; xff; x01]%byte) section_pattern = Ok [].
Proof. reflexivity. Qed.

Example find_offsets_adjacent_delimiters :
  find_offsets (Some [x00; x00; x00; x00; x00; x00; x00]%byte)
    sub_section_pattern
  = Ok [("0x0", "0x3")].
Proof. reflexivity. Qed.

Example find_offsets_none :
  find_offsets None section_pattern = Raise AttributeError.
Proof. reflexivity. Qed.

Example read_whole_scenario :
  read_binary_range_in_file scenario_fs "rules.airx" "0" "end_of_file"
  = (Ok (Some scenario_source), []).
Proof. reflexivity. Qed.

Example read_missing :
  read_binary_range_in_file scenario_fs "missing.airx" "0" "end_of_file"
  = (Ok None, [OutNotFound "missing.airx"]).
Proof. reflexivity. Qed.

Example read_negative_start :
  read_binary_range_in_file scenario_fs "rules.airx" "-2" "0x4"
  = (Ok None, [OutError OSError]).
Proof. reflexivity. Qed.

Example int16_file_separator :
  int16 (String "028" "4") = None.
Proof. reflexivity. Qed.

Example read_nul_in_name :
  read_binary_range_in_file scenario_fs (String "000" "rules.airx")
    "0" "end_of_file"
  = (Ok None, [OutError ValueError]).
Proof. reflexivity. Qed.

Example read_start_beyond_seek_limit :
  read_binary_range_in_file scenario_fs "rules.airx"
    "0x4000000000000000" "end_of_file"
  = (Ok None, [OutError OSError]).
Proof. reflexivity. Qed.

Example read_start_not_an_offset :
  read_binary_range_in_file scenario_fs "rules.airx"
    "0x8000000000000000" "end_of_file"
  = (Ok None, [OutError ValueError]).
Proof. reflexivity. Qed.

Example read_length_beyond_memory :
  read_binary_range_in_file scenario_fs "rules.airx" "0" "0x10000000000"
  = (Ok None, [OutError MemoryError]).
Proof. reflexivity. Qed.

Example read_length_not_a_length :
  read_binary_range_in_file scenario_fs "rules.airx"
    "0" "-0x8000000000000001"
  = (Ok None, [OutError OverflowError]).
Proof. reflexivity. Qed.

Example read_backwards_by_one :
  read_binary_range_in_file scenario_fs "rules.airx" "0x15" "0x14"
  = (Ok (Some [x00; x00; xcc]%byte), []).
Proof. reflexivity. Qed.

Example nested_inner_occurrences :
  occurrences (take 15 nested_source) sub_section_pattern 0 [4; 8; 12]%nat.
Proof. apply (occurrences_of_scan _ _ 16). vm_compute. reflexivity. Qed.

(** ** The records in closed form *)

Section loop_prefix_facts.

Context {A S : Type}.

(** As [for_each_io_invariant], where the step may use that the elements
    visited so far and the current one open the list. *)
Lemma for_each_io_invariant_prefix (I : list A → S → Prop) l
    (body : A → S → io S) s s' outs :
  I [] s →
  (∀ visited x st st' o,
     visited ++ [x] `prefix_of` l →
     I visited st → body x st = (Ok st', o) → I (visited ++ [x]) st') →
  for_each l body s = (Ok s', outs) →
  I l s'.
Proof.
  intros Hinit Hstep.
  enough (∀ visited rest st o,
            l = visited ++ rest → I visited st →
            for_each rest body st = (Ok s', o) → I l s')
    as Hgen by (by apply (Hgen [] l s outs)).
  intros visited rest. revert visited.
  induction rest as [|x rest IH]; intros visited st o Hl Hvis Hloop.
  - rewrite app_nil_r in Hl. subst visited. by injection Hloop as <-.
  - cbn [for_each] in Hloop.
    apply io_bind_ok in Hloop as (st' & o1 & o2 & Hbody & Hloop & _).
    apply (IH (visited ++ [x]) st' o2); [by rewrite <- app_assoc | | done].
    apply (Hstep visited x st st' o1); [| done..].
    exists rest. by rewrite <- app_assoc.
Qed.

End loop_prefix_facts.

Lemma seq_prefix_last visited x n :
  visited ++ [x] `prefix_of` seq 0 n → x = length visited.
Proof.
  intros [rest Hrest].
  assert (Hx : seq 0 n !! length visited = Some x).
  { rewrite Hrest, <- app_assoc. by apply list_lookup_middle. }
  apply lookup_seq in Hx as [-> _]. done.
Qed.

Section closed_form_facts.

Context (fs : filesystem) (filename : string) (content : bytes).
Hypothesis Hfile : fs !! filename = Some (Regular content).

Lemma sub_section_step_hex qs section_end j st st' :
  sub_section_step (map hex_block qs) section_end j st = Ok st' →
  ∃ q, qs !! j = Some q
       ∧ (j < length st)%nat
       ∧ st' = <[j := VDict (sub_section_record section_end j q)]> st.
Proof.
  unfold sub_section_step. intros Hstep.
  apply res_bind_ok in Hstep as (rng & Hrng%getitem_ok & Hstep).
  rewrite list_lookup_fmap in Hrng.
  destruct (qs !! j) as [q |] eqn:Hq; [| done]. injection Hrng as <-.
  change (hex_block q).1 with (hex_nat q.1) in Hstep.
  change (hex_block q).2 with (hex_nat q.2) in Hstep.
  rewrite (int16_res_hex_nat q.1), res_bind_pure in Hstep.
  rewrite (int16_res_hex_nat q.2), res_bind_pure in Hstep.
  unfold setitem in Hstep. case_decide as Hj; [| done].
  injection Hstep as <-. by exists q.
Qed.

Lemma sub_sections_loop_hex qs section_end subs :
  for_each (range (length qs))
    (sub_section_step (map hex_block qs) section_end)
    (replicate (length qs) (VDict ∅)) = Ok subs →
  subs = sub_section_records section_end qs.
Proof.
  intros Hloop.
  apply (for_each_res_invariant
           (λ visited st,
              length st = length qs
              ∧ ∀ j q, j ∈ visited → qs !! j = Some q →
                  st !! j = Some (VDict (sub_section_record section_end j q))))
    in Hloop.
  - destruct Hloop as [Hlen Hall]. apply list_eq. intros j.
    unfold sub_section_records. rewrite list_lookup_imap.
    destruct (qs !! j) as [q |] eqn:Hq; cbn.
    + apply Hall; [| done]. apply lookup_lt_Some in Hq.
      unfold range. apply elem_of_seq. lia.
    + apply lookup_ge_None. apply lookup_ge_None in Hq. lia.
  - split; [apply length_replicate |]. intros j q Hin.
    by apply elem_of_nil in Hin.
  - intros visited x st st' [Hlen Hall] Hstep.
    apply sub_section_step_hex in Hstep as (q0 & Hq0 & Hx & ->).
    split; [by rewrite length_insert |].
    intros j q Hin Hq. destruct (decide (j = x)) as [-> | Hne].
    + rewrite list_lookup_insert_eq by done. congruence.
    + rewrite list_lookup_insert_ne by done.
      apply Hall; [| done].
      apply elem_of_app in Hin as [Hin | Hin]; [done |].
      by apply list_elem_of_singleton in Hin.
Qed.

(** A read between two offsets of the scanner that returns bytes returns
    the bytes between them. *)
Lemma read_range_some (a b : nat) buf o :
  read_binary_range_in_file fs filename (hex_nat a) (hex_nat b)
  = (Ok (Some buf), o) →
  (a ≤ b)%nat →
  buf = slice content (a, b).
Proof.
  intros Hread Hab. unfold read_binary_range_in_file, read_body in Hread.
  rewrite (open_rb_regular _ _ _ Hfile), res_bind_pure in Hread.
  rewrite (int16_res_hex_nat a), res_bind_pure in Hread.
  destruct (seek_inv fs content (Z.of_nat a) _ eq_refl)
    as [[Hseek _] | [[Hseek _] | [[Hseek _] | [Hseek _]]]];
    rewrite Hseek in Hread; [| done..].
  rewrite res_bind_pure, hex_nat_not_sentinel in Hread.
  rewrite (int16_res_hex_nat b), res_bind_pure in Hread.
  destruct (read_n_inv fs content (Z.of_nat a) (Z.of_nat b - Z.of_nat a)
              _ eq_refl)
    as [[Hn _] | [[Hn _] | [[Hn Hone] | [[Hn _] | [Hn _]]]]];
    rewrite Hn in Hread; [done | done | lia | | done].
  injection Hread as <- <-. unfold slice. cbn [fst snd].
  rewrite Nat2Z.id. f_equal. lia.
Qed.

Lemma section_step_hex occs i acc acc' o :
  occurrences content section_pattern 0 occs →
  section_step fs filename (map hex_block (adjacent occs)) i acc
  = (Ok acc', o) →
  ∃ r qs doc,
    section_of_content content i r qs doc ∧ acc' = acc ++ [doc].
Proof.
  unfold section_step. intros Hocc Hstep.
  apply io_bind_ok in Hstep as (sec & ? & ? & Hsec & Hstep & _).
  apply lift_ok in Hsec as [Hsec%getitem_ok _].
  rewrite list_lookup_fmap in Hsec.
  destruct (adjacent occs !! i) as [r |] eqn:Hr; [| done].
  injection Hsec as <-.
  change (hex_block r).1 with (hex_nat r.1) in Hstep.
  change (hex_block r).2 with (hex_nat r.2) in Hstep.
  rewrite (int16_res_hex_nat r.1), lift_bind_pure in Hstep.
  rewrite (int16_res_hex_nat r.2), lift_bind_pure in Hstep.
  apply io_bind_ok in Hstep as (sub_section & ? & ? & Hread & Hstep & _).
  apply io_bind_ok in Hstep as (ranges & ? & ? & Hfind & Hstep & _).
  apply lift_ok in Hfind as [Hfind _].
  apply io_bind_ok in Hstep as (subs & ? & ? & Hsubs & Hstep & _).
  apply lift_ok in Hsubs as [Hsubs _].
  injection Hstep as <-.
  destruct sub_section as [buf |]; [| done].
  pose proof Hr as Hr'. apply adjacent_lookup in Hr' as [Hstart Hend].
  pose proof (occurrences_apart _ _ _ _ i (S i) _ _ Hocc
                ltac:(lia) Hstart Hend) as Hap.
  apply read_range_some in Hread; [| lia].
  rewrite find_offsets_Some in Hfind.
  apply find_offsets_fuel_ok in Hfind as (occs' & Hocc' & ->).
  rewrite length_map in Hsubs. apply sub_sections_loop_hex in Hsubs as ->.
  exists r, (adjacent occs'). eexists. split; [| reflexivity].
  exists occs, occs'. subst buf. destruct r as [a b].
  split_and!; [done | done | done | done | reflexivity].
Qed.

Lemma sections_loop_hex occs docs o :
  occurrences content section_pattern 0 occs →
  for_each (range (length (adjacent occs)))
    (section_step fs filename (map hex_block (adjacent occs))) []
  = (Ok docs, o) →
  length docs = length (adjacent occs)
  ∧ ∀ i doc, docs !! i = Some doc →
      ∃ r qs, section_of_content content i r qs doc.
Proof.
  intros Hocc Hloop.
  apply (for_each_io_invariant_prefix
           (λ visited st,
              length st = length visited
              ∧ ∀ i doc, st !! i = Some doc →
                  ∃ r qs, section_of_content content i r qs doc))
    in Hloop.
  - destruct Hloop as [Hlen Hall]. split; [| done].
    unfold range in Hlen. by rewrite length_seq in Hlen.
  - split; [done |]. intros i doc Hi. by rewrite lookup_nil in Hi.
  - intros visited x st st' o' Hpre [Hlen Hall] Hstep.
    apply seq_prefix_last in Hpre as ->.
    apply (section_step_hex occs) in Hstep as (r & qs & doc & Hdoc & ->);
      [| done].
    split; [rewrite !length_app; cbn; lia |].
    intros i doc' Hi. apply lookup_app_Some in Hi as [Hi | [Hge Hi]].
    + by apply Hall.
    + destruct (i - length st)%nat as [|k] eqn:Hk; [| done].
      injection Hi as <-. assert (i = length visited) as -> by lia. eauto.
Qed.

End closed_form_facts.

Section occurrences_gap_facts.

Context (data pattern : bytes).

(** No occurrence lies before the first one that the scan collects. *)
Lemma occurrences_first s occs p x :
  occurrences data pattern s occs →
  occs !! 0%nat = Some p →
  (s ≤ x < p)%nat →
  ¬ match_at data pattern x.
Proof.
  intros Hocc Hp Hx. destruct Hocc as [| s p' occs _ _ Hfirst _]; [done |].
  injection Hp as ->. by apply Hfirst.
Qed.

(** Between the end of one collected occurrence and the next collected
    occurrence the pattern does not occur. *)
Lemma occurrences_gap s occs i p q x :
  occurrences data pattern s occs →
  occs !! i = Some p →
  occs !! S i = Some q →
  (p + length pattern ≤ x < q)%nat →
  ¬ match_at data pattern x.
Proof.
  intros Hocc. revert i.
  induction Hocc as [| s p' occs _ _ _ Hrest IH]; intros i Hp Hq Hx; [done |].
  destruct i as [|i].
  - injection Hp as ->. cbn in Hq.
    by apply (occurrences_first _ _ _ _ Hrest Hq).
  - by apply (IH i).
Qed.

End occurrences_gap_facts.

Section emitted_facts.

Context (fs : filesystem) (filename : string).

Lemma print_loop_all (docs : list pyval) :
  for_each (range (length docs))
    (λ i (_ : ()), doc ← lift (getitem docs i); print (OutJson doc)) ()
  = (Ok (), map OutJson docs).
Proof. apply (print_loop_returns [] docs). Qed.

Lemma io_bind_ok_outputs {A B} (a : A) (o : list out) (k : A → io B) :
  (Ok a, o) ≫= k = ((k a).1, o ++ (k a).2).
Proof. reflexivity. Qed.

(** Whatever record a run prints is the record of a range of the file
    that the run has read. *)
Lemma emits_section_of_content sec :
  emits_section fs filename sec →
  ∃ content i r qs,
    fs !! filename = Some (Regular content)
    ∧ section_of_content content i r qs (VDict sec).
Proof.
  intros [k Hk]. unfold extract_sections in Hk.
  destruct (fs !! filename) as [[content |] |] eqn:Hfs.
  - rewrite (read_whole_file _ _ _ Hfs), io_bind_pure in Hk.
    destruct (find_offsets_fuel_returns content section_pattern
                (S (length content))) as (occs & Hocc & Hfind);
      [discriminate | lia |].
    rewrite <- find_offsets_Some in Hfind.
    rewrite Hfind, lift_bind_pure, length_map in Hk.
    pose proof (for_each_io_outputs is_diagnostic
                  (range (length (adjacent occs)))
                  (section_step fs filename (map hex_block (adjacent occs)))
                  [] (section_step_outputs fs filename _)) as Hdiag.
    destruct (for_each (range (length (adjacent occs))) _ [])
      as [[docs | e |] o] eqn:Hloop; cbn [snd] in Hdiag.
    + rewrite io_bind_ok_outputs, print_loop_all in Hk.
      cbn [fst snd] in Hk.
      apply lookup_app_Some in Hk as [Hk | [_ Hk]].
      { by apply (Forall_lookup_1 _ _ _ _ Hdiag) in Hk. }
      rewrite list_lookup_fmap in Hk.
      destruct (docs !! (k - length o)%nat) as [doc |] eqn:Hdoc; [| done].
      injection Hk as ->.
      destruct (sections_loop_hex fs filename content Hfs occs docs o
                  Hocc Hloop) as [_ Hall].
      destruct (Hall _ _ Hdoc) as (r & qs & Hsec). eauto 6.
    + by apply (Forall_lookup_1 _ _ _ _ Hdiag) in Hk.
    + by apply (Forall_lookup_1 _ _ _ _ Hdiag) in Hk.
  - exfalso. revert Hk.
    unfold read_binary_range_in_file, read_body, open_rb. rewrite Hfs.
    cbn. by destruct k as [|[|k]].
  - exfalso. revert Hk.
    unfold read_binary_range_in_file, read_body, open_rb. rewrite Hfs.
    destruct (has_nul filename); cbn; by destruct k as [|[|k]].
Qed.

End emitted_facts.

Section run_facts.

Context (fs : filesystem) (filename : string) (content : bytes).
Hypothesis Hfile : fs !! filename = Some (Regular content).
Hypothesis Hsize : len content < offset_max.


End run_facts.

(** * Further properties of the three functions *)

(** ** The offset scanner *)

(** X1. With an empty pattern the scanner never returns: every search
    succeeds at position 0 and leaves the search start at 0, so the loop
    outlasts every number of iterations. *)
Theorem find_offsets_empty_pattern (data : bytes) (fuel : nat) :
  bytes_find data [] 0 + len (@nil byte) = 0
  ∧ find_offsets_fuel fuel (Some data) [] = Diverge
  ∧ find_offsets (Some data) [] = Diverge.
Proof.
  assert (Hscan : ∀ n, find_offsets_fuel n (Some data) [] = Diverge).
  { intros n. unfold find_offsets_fuel. by rewrite scan_empty_pattern. }
  split_and!; [| apply Hscan | rewrite find_offsets_Some; apply Hscan].
  unfold bytes_find, len. cbn [Z.ltb Z.compare].
  replace (Z.of_nat (length data) <? 0) with false
    by (symmetry; apply Z.ltb_ge; lia).
  by destruct data.
Qed.

(** X2. Both ends of every range that the scanner returns are
    occurrences of the pattern, the occurrence at the end lies wholly in
    the buffer, and the end of a range is the start of the next one. *)
Theorem find_offsets_range_ends (data pattern : bytes)
    (blocks : list block) (i : nat) (blk : block) :
  find_offsets (Some data) pattern = Ok blocks →
  blocks !! i = Some blk →
  ∃ s e : nat,
    blk = (hex_nat s, hex_nat e)
    ∧ match_at data pattern s
    ∧ match_at data pattern e
    ∧ (e + length pattern ≤ length data)%nat
    ∧ ∀ blk', blocks !! S i = Some blk' → blk'.1 = blk.2.
Proof.
  intros Hfind Hblk. rewrite find_offsets_Some in Hfind.
  apply find_offsets_fuel_ok in Hfind as (occs & Hocc & ->).
  rewrite list_lookup_fmap in Hblk.
  destruct (adjacent occs !! i) as [r |] eqn:Hr; [| done].
  injection Hblk as <-.
  pose proof Hr as Hr'. apply adjacent_lookup in Hr' as [Hs He].
  destruct (occurrences_lookup _ _ _ _ _ _ Hocc Hs) as [_ Hms].
  destruct (occurrences_lookup _ _ _ _ _ _ Hocc He) as [_ Hme].
  exists r.1, r.2. split_and!; [done | done | done | |].
  - by apply match_at_end.
  - intros blk' Hblk'. rewrite list_lookup_fmap in Hblk'.
    destruct (adjacent occs !! S i) as [r' |] eqn:Hr'; [| done].
    injection Hblk' as <-. apply adjacent_lookup in Hr' as [Hs' _].
    cbn. congruence.
Qed.

Lemma find_offsets_range_ends_witness :
  ∃ s e : nat,
    ("0x4", "0x8") = (hex_nat s, hex_nat e)
    ∧ match_at nested_source sub_section_pattern s
    ∧ match_at nested_source sub_section_pattern e
    ∧ (e + length sub_section_pattern ≤ length nested_source)%nat
    ∧ ∀ blk', [("0x4", "0x8"); ("0x8", "0xc")] !! 1%nat = Some blk' →
        blk'.1 = ("0x4", "0x8").2.
Proof.
  apply (find_offsets_range_ends nested_source sub_section_pattern
           [("0x4", "0x8"); ("0x8", "0xc")] 0 ("0x4", "0x8")).
  - vm_compute. reflexivity.
  - reflexivity.
Defined.

(** X3. Inside a range the pattern does not occur again once the
    delimiter at its start is past, and before the first range it does
    not occur at all: the scanner skips no delimiter. *)
Theorem find_offsets_no_delimiter_inside (data pattern : bytes)
    (blocks : list block) (i : nat) (blk : block) :
  find_offsets (Some data) pattern = Ok blocks →
  blocks !! i = Some blk →
  ∃ s e : nat,
    blk = (hex_nat s, hex_nat e)
    ∧ (∀ x, (s + length pattern ≤ x < e)%nat → ¬ match_at data pattern x)
    ∧ (i = 0%nat → ∀ x, (x < s)%nat → ¬ match_at data pattern x).
Proof.
  intros Hfind Hblk. rewrite find_offsets_Some in Hfind.
  apply find_offsets_fuel_ok in Hfind as (occs & Hocc & ->).
  rewrite list_lookup_fmap in Hblk.
  destruct (adjacent occs !! i) as [r |] eqn:Hr; [| done].
  injection Hblk as <-. apply adjacent_lookup in Hr as [Hs He].
  exists r.1, r.2. split_and!; [done | |].
  - intros x Hx. by apply (occurrences_gap _ _ _ _ _ _ _ _ Hocc Hs He).
  - intros -> x Hx.
    apply (occurrences_first _ _ _ _ _ _ Hocc Hs). lia.
Qed.

Lemma find_offsets_no_delimiter_inside_witness :
  ∃ s e : nat,
    ("0x0", "0x8") = (hex_nat s, hex_nat e)
    ∧ (∀ x, (s + length section_pattern ≤ x < e)%nat →
         ¬ match_at scenario_source section_pattern x)
    ∧ (0%nat = 0%nat → ∀ x, (x < s)%nat →
         ¬ match_at scenario_source section_pattern x).
Proof.
  apply (find_offsets_no_delimiter_inside scenario_source section_pattern
           [("0x0", "0x8"); ("0x8", "0x10")] 0 ("0x0", "0x8")).
  - vm_compute. reflexivity.
  - reflexivity.
Defined.

(** ** The range reader *)








(** ** The record builder *)

Lemma sub_section_of_record i r subs j sub :
  sub_section_of (section_record i r subs) j sub →
  subs !! j = Some (VDict sub).
Proof.
  intros (subs' & Hsubs & Hj). unfold section_record in Hsubs.
  rewrite lookup_insert_eq in Hsubs. by injection Hsubs as <-.
Qed.

Lemma sub_section_records_lookup section_end qs j sub :
  sub_section_records section_end qs !! j = Some (VDict sub) →
  ∃ q, qs !! j = Some q ∧ sub = sub_section_record section_end j q.
Proof.
  unfold sub_section_records. rewrite list_lookup_imap.
  destruct (qs !! j) as [q |]; cbn; [| done]. intros [= <-]. eauto.
Qed.

(** The bytes of a range between two outer delimiters start with the
    outer delimiter. *)
Lemma slice_starts_with_delimiter content (a b : nat) :
  match_at content section_pattern a →
  (a + length section_pattern ≤ b)%nat →
  section_pattern `prefix_of` slice content (a, b).
Proof.
  intros [_ [k Hk]] Hab. unfold slice. cbn [fst snd]. rewrite Hk.
  rewrite take_app_ge by lia. by eexists.
Qed.

(** In such bytes the inner delimiter cannot occur before position 4. *)
Lemma inner_match_after_delimiter buf q :
  section_pattern `prefix_of` buf →
  match_at buf sub_section_pattern q →
  (4 ≤ q)%nat.
Proof.
  intros [k ->] [_ [k' Hk']].
  destruct q as [|[|[|[|q]]]]; [discriminate.. | lia].
Qed.

Section emitted_closed_form.

Context (fs : filesystem) (filename : string).

(** A subsection record of an emitted section, in closed form, with the
    bounds that its position in the section gives. *)
Lemma emits_sub_section_closed sec j sub :
  emits_section fs filename sec →
  sub_section_of sec j sub →
  ∃ content i (r q : nat * nat) occs',
    fs !! filename = Some (Regular content)
    ∧ sec = section_record i r
              (sub_section_records (Z.of_nat r.2) (adjacent occs'))
    ∧ occurrences (slice content r) sub_section_pattern 0 occs'
    ∧ adjacent occs' !! j = Some q
    ∧ sub = sub_section_record (Z.of_nat r.2) j q
    ∧ (4 ≤ q.1)%nat
    ∧ (q.1 + 3 ≤ q.2)%nat
    ∧ (q.2 + 3 ≤ r.2 - r.1)%nat.
Proof.
  intros Hsec Hsub.
  apply emits_section_of_content in Hsec
    as (content & i & r & qs & Hfile & occs & occs' & Hocc & Hr & Hocc'
        & -> & [= ->]).
  apply sub_section_of_record in Hsub.
  apply sub_section_records_lookup in Hsub as (q & Hq & ->).
  exists content, i, r, q, occs'.
  pose proof Hr as Hr'. apply adjacent_lookup in Hr' as [Hs He].
  pose proof (occurrences_apart _ _ _ _ i (S i) _ _ Hocc
                ltac:(lia) Hs He) as Hap.
  destruct (occurrences_lookup _ _ _ _ _ _ Hocc Hs) as [_ Hms].
  pose proof Hq as Hq'. apply adjacent_lookup in Hq' as [Hqs Hqe].
  pose proof (occurrences_apart _ _ _ _ j (S j) _ _ Hocc'
                ltac:(lia) Hqs Hqe) as Hap'.
  destruct (occurrences_lookup _ _ _ _ _ _ Hocc' Hqs) as [_ Hmqs].
  destruct (occurrences_lookup _ _ _ _ _ _ Hocc' Hqe) as [_ Hmqe].
  split_and!; [done.. | | |].
  - apply (inner_match_after_delimiter (slice content r)); [| done].
    destruct r as [a b]. by apply slice_starts_with_delimiter.
  - cbn in Hap'. lia.
  - apply match_at_end in Hmqe. unfold slice in Hmqe.
    rewrite length_take in Hmqe. cbn in Hmqe. lia.
Qed.

End emitted_closed_form.





(** X10. Every section record that a run prints describes a range
    between two consecutive outer delimiters of the file: its name
    carries the index of the range, its start and end are positions where
    the outer delimiter occurs, its size is their distance, which is at
    least 4, and [is_empty] is true exactly when the two delimiters are
    adjacent. *)
Theorem emitted_section_is_range (fs : filesystem) (filename : string)
    (sec : gmap string pyval) :
  emits_section fs filename sec →
  ∃ content occs (i s e : nat) (b : bool),
    fs !! filename = Some (Regular content)
    ∧ occurrences content section_pattern 0 occs
    ∧ occs !! i = Some s
    ∧ occs !! S i = Some e
    ∧ match_at content section_pattern s
    ∧ match_at content section_pattern e
    ∧ sec !! "name" = Some (VStr ("section_" +:+ pretty i))
    ∧ sec !! "section_start" = Some (VStr (hex_nat s))
    ∧ sec !! "section_end" = Some (VStr (hex_nat e))
    ∧ sec !! "size" = Some (VInt (Z.of_nat e - Z.of_nat s))
    ∧ (s + 4 ≤ e)%nat
    ∧ sec !! "is_empty" = Some (VBool b)
    ∧ (b = true ↔ e = (s + 4)%nat).
Proof.
  intros Hsec.
  apply emits_section_of_content in Hsec
    as (content & i & r & qs & Hfile & occs & occs' & Hocc & Hr & _
        & _ & [= ->]).
  apply adjacent_lookup in Hr as [Hs He].
  pose proof (occurrences_apart _ _ _ _ i (S i) _ _ Hocc
                ltac:(lia) Hs He) as Hap.
  destruct (occurrences_lookup _ _ _ _ _ _ Hocc Hs) as [_ Hms].
  destruct (occurrences_lookup _ _ _ _ _ _ Hocc He) as [_ Hme].
  exists content, occs, i, r.1, r.2,
    (Z.of_nat r.2 - Z.of_nat r.1 <=? len section_pattern).
  unfold section_record.
  split_and!; [done.. | dict_lookup | dict_lookup | dict_lookup | dict_lookup
               | done | dict_lookup |].
  cbn in Hap. rewrite Z.leb_le. unfold len. cbn. lia.
Qed.

Lemma emitted_section_is_range_witness :
  ∃ content occs (i s e : nat) (b : bool),
    nested_fs !! "rules.airx" = Some (Regular content)
    ∧ occurrences content section_pattern 0 occs
    ∧ occs !! i = Some s
    ∧ occs !! S i = Some e
    ∧ match_at content section_pattern s
    ∧ match_at content section_pattern e
    ∧ nested_section_0 !! "name" = Some (VStr ("section_" +:+ pretty i))
    ∧ nested_section_0 !! "section_start" = Some (VStr (hex_nat s))
    ∧ nested_section_0 !! "section_end" = Some (VStr (hex_nat e))
    ∧ nested_section_0 !! "size" = Some (VInt (Z.of_nat e - Z.of_nat s))
    ∧ (s + 4 ≤ e)%nat
    ∧ nested_section_0 !! "is_empty" = Some (VBool b)
    ∧ (b = true ↔ e = (s + 4)%nat).
Proof.
  apply (emitted_section_is_range nested_fs "rules.airx" nested_section_0).
  exists 0%nat. vm_compute. reflexivity.
Defined.

(** X11. The subsections that an emitted section lists are the ranges
    between consecutive inner delimiters of the bytes of the section,
    found left to right without overlap: one record for each such range,
    in order, named after its local index and holding the range as local
    start and end and its length as size. *)
Theorem emitted_sub_sections_are_ranges (fs : filesystem) (filename : string)
    (sec : gmap string pyval) :
  emits_section fs filename sec →
  ∃ content (r : nat * nat) occs' subs,
    fs !! filename = Some (Regular content)
    ∧ sec !! "section_start" = Some (VStr (hex_nat r.1))
    ∧ sec !! "section_end" = Some (VStr (hex_nat r.2))
    ∧ occurrences (slice content r) sub_section_pattern 0 occs'
    ∧ sec !! "sub_sections" = Some (VList subs)
    ∧ length subs = (length occs' - 1)%nat
    ∧ ∀ j q, adjacent occs' !! j = Some q →
        ∃ sub,
          subs !! j = Some (VDict sub)
          ∧ sub !! "name" = Some (VStr ("sub_section_" +:+ pretty j))
          ∧ sub !! "start" = Some (VStr (hex_nat q.1))
          ∧ sub !! "end" = Some (VStr (hex_nat q.2))
          ∧ sub !! "size" = Some (VInt (Z.of_nat q.2 - Z.of_nat q.1)).
Proof.
  intros Hsec.
  apply emits_section_of_content in Hsec
    as (content & i & r & qs & Hfile & occs & occs' & _ & _ & Hocc'
        & -> & [= ->]).
  exists content, r, occs',
    (sub_section_records (Z.of_nat r.2) (adjacent occs')).
  unfold section_record.
  split_and!; [done | dict_lookup | dict_lookup | done | dict_lookup | |].
  - unfold sub_section_records. by rewrite length_imap, adjacent_length.
  - intros j q Hq. exists (sub_section_record (Z.of_nat r.2) j q).
    unfold sub_section_records at 1. rewrite list_lookup_imap, Hq.
    unfold sub_section_record.
    split_and!; [done | dict_lookup..].
Qed.

Lemma emitted_sub_sections_are_ranges_witness :
  ∃ content (r : nat * nat) occs' subs,
    nested_fs !! "rules.airx" = Some (Regular content)
    ∧ nested_section_0 !! "section_start" = Some (VStr (hex_nat r.1))
    ∧ nested_section_0 !! "section_end" = Some (VStr (hex_nat r.2))
    ∧ occurrences (slice content r) sub_section_pattern 0 occs'
    ∧ nested_section_0 !! "sub_sections" = Some (VList subs)
    ∧ length subs = (length occs' - 1)%nat
    ∧ ∀ j q, adjacent occs' !! j = Some q →
        ∃ sub,
          subs !! j = Some (VDict sub)
          ∧ sub !! "name" = Some (VStr ("sub_section_" +:+ pretty j))
          ∧ sub !! "start" = Some (VStr (hex_nat q.1))
          ∧ sub !! "end" = Some (VStr (hex_nat q.2))
          ∧ sub !! "size" = Some (VInt (Z.of_nat q.2 - Z.of_nat q.1)).
Proof.
  apply (emitted_sub_sections_are_ranges nested_fs "rules.airx"
           nested_section_0).
  exists 0%nat. vm_compute. reflexivity.
Defined.

(** X12. Every emitted subsection lies inside its section, after the
    outer delimiter that opens the section: its local start is at least
    4, its end is at least 3 beyond its start, and 3 more bytes of the
    section follow its end. Its [is_empty] is true exactly when its size
    is 3, and a section that has a subsection is at least 10 bytes
    long. *)
Theorem sub_section_inside_section (fs : filesystem) (filename : string)
    (sec : gmap string pyval) (j : nat) (sub : gmap string pyval) :
  emits_section fs filename sec →
  sub_section_of sec j sub →
  ∃ (size s e : Z) (b : bool),
    sec !! "size" = Some (VInt size)
    ∧ hex_field sub "start" s
    ∧ hex_field sub "end" e
    ∧ sub !! "size" = Some (VInt (e - s))
    ∧ 4 ≤ s
    ∧ s + 3 ≤ e
    ∧ e + 3 ≤ size
    ∧ 10 ≤ size
    ∧ sub !! "is_empty" = Some (VBool b)
    ∧ (b = true ↔ e - s = 3).
Proof.
  intros Hsec Hsub.
  destruct (emits_sub_section_closed _ _ _ _ _ Hsec Hsub)
    as (content & i & r & q & occs' & _ & -> & _ & _ & -> & Hs & He & Hend).
  exists (Z.of_nat r.2 - Z.of_nat r.1), (Z.of_nat q.1), (Z.of_nat q.2),
    (Z.of_nat q.2 - Z.of_nat q.1 <=? len sub_section_pattern).
  unfold section_record, sub_section_record, hex_field.
  split_and!; [dict_lookup | | | dict_lookup | lia | lia | lia | lia
               | dict_lookup |].
  - exists (hex_nat q.1). split; [dict_lookup | apply int16_hex].
  - exists (hex_nat q.2). split; [dict_lookup | apply int16_hex].
  - change (len sub_section_pattern) with 3. rewrite Z.leb_le. lia.
Qed.

Lemma sub_section_inside_section_witness :
  ∃ (size s e : Z) (b : bool),
    nested_section_0 !! "size" = Some (VInt size)
    ∧ hex_field nested_sub_section_1 "start" s
    ∧ hex_field nested_sub_section_1 "end" e
    ∧ nested_sub_section_1 !! "size" = Some (VInt (e - s))
    ∧ 4 ≤ s
    ∧ s + 3 ≤ e
    ∧ e + 3 ≤ size
    ∧ 10 ≤ size
    ∧ nested_sub_section_1 !! "is_empty" = Some (VBool b)
    ∧ (b = true ↔ e - s = 3).
Proof.
  apply (sub_section_inside_section nested_fs "rules.airx" nested_section_0
           1 nested_sub_section_1).
  - exists 0%nat. vm_compute. reflexivity.
  - eexists. split; reflexivity.
Defined.

(** X13. An emitted section record has the six keys [name],
    [section_start], [section_end], [size], [is_empty] and
    [sub_sections] and no other; each of its subsection records has the
    seven keys [name], [start], [end], [offset_1], [offset_2], [size]
    and [is_empty] and no other. *)
Theorem emitted_record_keys (fs : filesystem) (filename : string)
    (sec : gmap string pyval) :
  emits_section fs filename sec →
  dom sec = section_keys
  ∧ ∀ j sub, sub_section_of sec j sub → dom sub = sub_section_keys.
Proof.
  intros Hsec. split.
  - apply emits_section_of_content in Hsec
      as (content & i & r & qs & _ & occs & occs' & _ & _ & _ & _ & [= ->]).
    unfold section_record, section_keys.
    rewrite !dom_insert_L, dom_empty_L. set_solver.
  - intros j sub Hsub.
    destruct (emits_sub_section_closed _ _ _ _ _ Hsec Hsub)
      as (content & i & r & q & occs' & _ & _ & _ & _ & -> & _).
    unfold sub_section_record, sub_section_keys.
    rewrite !dom_insert_L, dom_empty_L. set_solver.
Qed.

Lemma emitted_record_keys_witness :
  dom nested_section_0 = section_keys
  ∧ ∀ j sub, sub_section_of nested_section_0 j sub →
      dom sub = sub_section_keys.
Proof.
  apply (emitted_record_keys nested_fs "rules.airx" nested_section_0).
  exists 0%nat. vm_compute. reflexivity.
Defined.

(** X14. Neither of the two offsets of an emitted subsection record
    points into the section that holds it: [offset_1] is at least the end
    of the section, [offset_2] is at least 4 beyond the end of the
    section, and [offset_1] is at most [offset_2]. *)
Theorem rebased_offsets_beyond_section (fs : filesystem) (filename : string)
    (sec : gmap string pyval) (j : nat) (sub : gmap string pyval) :
  emits_section fs filename sec →
  sub_section_of sec j sub →
  ∃ section_end offset_1 offset_2 : Z,
    hex_field sec "section_end" section_end
    ∧ hex_field sub "offset_1" offset_1
    ∧ hex_field sub "offset_2" offset_2
    ∧ section_end ≤ offset_1
    ∧ offset_1 ≤ offset_2
    ∧ section_end + 4 ≤ offset_2.
Proof.
  intros Hsec Hsub.
  destruct (emits_sub_section_closed _ _ _ _ _ Hsec Hsub)
    as (content & i & r & q & occs' & _ & -> & _ & _ & -> & Hs & He & Hend).
  exists (Z.of_nat r.2),
    (if (j =? 0)%nat
     then Z.of_nat q.1 + Z.of_nat r.2 - len section_pattern
     else Z.of_nat q.2 + Z.of_nat r.2 - len sub_section_pattern),
    (Z.of_nat q.2 + Z.of_nat r.2 - len sub_section_pattern).
  unfold section_record, sub_section_record, hex_field.
  change (len section_pattern) with 4.
  change (len sub_section_pattern) with 3.
  split_and!.
  - exists (hex_nat r.2). split; [dict_lookup | apply int16_hex].
  - eexists. split; [dict_lookup | apply int16_hex].
  - eexists. split; [dict_lookup | apply int16_hex].
  - destruct (j =? 0)%nat; lia.
  - destruct (j =? 0)%nat; lia.
  - lia.
Qed.

Lemma rebased_offsets_beyond_section_witness :
  ∃ section_end offset_1 offset_2 : Z,
    hex_field nested_section_0 "section_end" section_end
    ∧ hex_field nested_sub_section_0 "offset_1" offset_1
    ∧ hex_field nested_sub_section_0 "offset_2" offset_2
    ∧ section_end ≤ offset_1
    ∧ offset_1 ≤ offset_2
    ∧ section_end + 4 ≤ offset_2.
Proof.
  apply (rebased_offsets_beyond_section nested_fs "rules.airx"
           nested_section_0 0 nested_sub_section_0).
  - exists 0%nat. vm_compute. reflexivity.
  - eexists. split; reflexivity.
Defined.

(** ** The scanner and the reader together *)

(** The [k]-th occurrence that a scan from [s] collects lies at least
    [k] pattern lengths after [s]. *)
Lemma occurrences_spread data pattern s occs k p :
  occurrences data pattern s occs →
  occs !! k = Some p →
  (s + k * length pattern ≤ p)%nat.
Proof.
  intros Hocc. revert k.
  induction Hocc as [| s p' occs Hsp _ _ _ IH]; intros k Hk; [done |].
  destruct k as [|k]; simplify_eq/=; [lia |].
  specialize (IH k Hk). lia.
Qed.

(** X15. The ranges that the scanner returns fit into the buffer one
    pattern length apart: with [n] ranges the buffer holds at least
    [(n + 1)] times the pattern length, so a buffer shorter than twice
    the pattern has no range. *)
Theorem find_offsets_count_bound (data pattern : bytes)
    (blocks : list block) :
  find_offsets (Some data) pattern = Ok blocks →
  blocks ≠ [] →
  ((length blocks + 1) * length pattern ≤ length data)%nat.
Proof.
  intros Hfind Hne. rewrite find_offsets_Some in Hfind.
  apply find_offsets_fuel_ok in Hfind as (occs & Hocc & ->).
  rewrite length_map, adjacent_length.
  destruct (lookup_lt_is_Some_2 occs (pred (length occs))) as [p Hp].
  { destruct occs as [|a [|b occs]]; [done | done | cbn; lia]. }
  pose proof (occurrences_spread _ _ _ _ _ _ Hocc Hp) as Hspread.
  destruct (occurrences_lookup _ _ _ _ _ _ Hocc Hp) as [_ Hm].
  apply match_at_end in Hm.
  assert (2 ≤ length occs)%nat
    by (destruct occs as [|a [|b occs]]; [done | done | cbn; lia]).
  replace (length occs - 1 + 1)%nat with (S (pred (length occs))) by lia.
  cbn [Nat.mul]. lia.
Qed.

Lemma find_offsets_count_bound_witness :
  ((length [("0x4", "0x8"); ("0x8", "0xc")] + 1) * length sub_section_pattern
   ≤ length nested_source)%nat.
Proof.
  apply (find_offsets_count_bound nested_source sub_section_pattern
           [("0x4", "0x8"); ("0x8", "0xc")]).
  - vm_compute. reflexivity.
  - discriminate.
Defined.


